(** * tinker-mindmap: store, history, graph edits and collision resolver

    A shallow embedding of the graph-editing core of the application:

    - the zustand store ([useAppStore]): documents, active document,
      breadcrumb, undo/redo stacks;
    - the canvas handlers that edit the node and edge lists
      ([handleNodeAction], [onKeyDown]);
    - the collision resolver [resolveCollisions];
    - the JSON import path ([importJSON], [handleImport]).

    Conventions.  JavaScript arrays are lists in array order (a stack's
    top is the last element).  [null]/[undefined] are [None].  The two
    sources of nondeterminism, [Date.now()] and [uid()], are explicit
    arguments ([now], [uid]).  Node coordinates are a type parameter of
    [Node.t]: the store, the canvas handlers and the structural theorems
    on the resolver use integer coordinates ([Z]); where the arithmetic
    of the resolver itself is at stake, the same loop is run on IEEE 754
    doubles (module [Doubles], on Rocq's primitive floats). *)

From Stdlib Require Import ZArith List String Bool Lia Floats.
From stdpp Require Import base list strings.
Import ListNotations.

Local Open Scope string_scope.
Local Open Scope Z_scope.
Local Open Scope list_scope.

(* ===================================================================== *)
(** * Data model (types/index.ts, reactflow's Node and Edge)             *)
(* ===================================================================== *)

Inductive LayoutMode := mindmap | orgchart | logic.

Record XY (num : Type) := mkXY { x : num; y : num }.
Arguments mkXY {num} _ _.
Arguments x {num} _.
Arguments y {num} _.

(** [data] of an editable node.  [subFileId] is only ever written by
    the portal toggle. *)
Record NodeData := mkData {
  label : string;
  isPortal : bool;
  color : string;
  subFileId : option string;
}.

Module Node.
Record t (num : Type) := mk {
    id : string;
    type : string;
    position : XY num;
    data : NodeData;
    selected : bool;
  }.
Arguments mk {num} _ _ _ _ _.
Arguments id {num} _.
Arguments type {num} _.
Arguments position {num} _.
Arguments data {num} _.
Arguments selected {num} _.

  (** [{ ...n, position: p }] *)
Definition with_position {num} (p : XY num) (n : t num) : t num :=
    mk (id n) (type n) p (data n) (selected n).

  (** [{ ...n, data: d }] *)
Definition with_data {num} (d : NodeData) (n : t num) : t num :=
    mk (id n) (type n) (position n) d (selected n).
End Node.

Module Edge.
Record t := mk {
    id : string;
    source : string;
    target : string;
    sourceHandle : option string;
    targetHandle : option string;
  }.
End Edge.

(** Nodes as the store and the canvas hold them. *)
Abbreviation GNode := (Node.t Z).

Record Snapshot := mkSnapshot {
  snap_nodes : list GNode;
  snap_edges : list Edge.t;
}.

Module MindMapFile.
Record t := mk {
    id : string;
    name : string;
    pinned : bool;
    parentFileId : option string;
    parentNodeId : option string;
    nodes : list GNode;
    edges : list Edge.t;
    createdAt : Z;
    updatedAt : Z;
  }.

  (** [{ ...f, nodes, updatedAt }] *)
Definition with_nodes (ns : list GNode) (now : Z) (f : t) : t :=
    mk (id f) (name f) (pinned f) (parentFileId f) (parentNodeId f)
       ns (edges f) (createdAt f) now.

  (** [{ ...f, edges, updatedAt }] *)
Definition with_edges (es : list Edge.t) (now : Z) (f : t) : t :=
    mk (id f) (name f) (pinned f) (parentFileId f) (parentNodeId f)
       (nodes f) es (createdAt f) now.
End MindMapFile.

(** The part of [AppState] the editing core reads and writes. *)
Record AppState := mkState {
  files : list MindMapFile.t;
  activeFileId : option string;
  breadcrumb : list string;
  undoStack : list Snapshot;
  redoStack : list Snapshot;
  layoutMode : LayoutMode;
}.

(* ===================================================================== *)
(** * The store (useAppStore)                                            *)
(* ===================================================================== *)

Definition MAX_UNDO : nat := 50.

(** [a === b] for a nullable string against a string. *)
Definition opt_is (a : option string) (b : string) : bool :=
  match a with
  | Some s => String.eqb s b
  | None => false
  end.

(** [arr.slice(-n)]: the last [n] elements (all of them when shorter). *)
Definition slice_last {A} (n : nat) (l : list A) : list A :=
  drop (length l - n)%nat l.

(** [arr.slice(0, -1)]: all but the last element. *)
Definition slice_init {A} (l : list A) : list A :=
  take (length l - 1)%nat l.

Definition defaultFile (uid : string) (now : Z) (name : string)
    (parentFileId parentNodeId : option string) : MindMapFile.t :=
  MindMapFile.mk uid name false parentFileId parentNodeId
    [ Node.mk "root" "editable" (mkXY 0 0)
        (mkData "Central Idea" false EmptyString None) false ]
    [] now now.

(** [createFile(name, parentFileId = null, parentNodeId = null)]: the
    new document is appended and becomes the active one.  Returns the
    new state and the new id. *)
Definition createFile (uid : string) (now : Z) (name : option string)
    (parentFileId parentNodeId : option string) (s : AppState)
    : AppState * string :=
  let f := defaultFile uid now (default "Untitled Map" name)
             parentFileId parentNodeId in
  (mkState (files s ++ [f]) (Some (MindMapFile.id f)) (breadcrumb s)
           (undoStack s) (redoStack s) (layoutMode s),
   MindMapFile.id f).

Definition deleteFile (id : string) (s : AppState) : AppState :=
  let remaining :=
    List.filter (fun f => negb (String.eqb (MindMapFile.id f) id)
                     && negb (opt_is (MindMapFile.parentFileId f) id))
           (files s) in
  mkState remaining
    (if opt_is (activeFileId s) id
     then option_map MindMapFile.id (head remaining)
     else activeFileId s)
    (breadcrumb s) (undoStack s) (redoStack s) (layoutMode s).

Definition setActiveFile (id : string) (s : AppState) : AppState :=
  mkState (files s) (Some id) [id] [] [] (layoutMode s).

Definition pushBreadcrumb (id : string) (s : AppState) : AppState :=
  mkState (files s) (Some id) (breadcrumb s ++ [id]) [] [] (layoutMode s).

Definition popBreadcrumb (s : AppState) : AppState :=
  let bc := slice_init (breadcrumb s) in
  mkState (files s)
    (match last bc with
     | Some b => Some b
     | None => option_map MindMapFile.id (head (files s))
     end)
    bc [] [] (layoutMode s).

(** [f.id === s.activeFileId] *)
Definition is_active (s : AppState) (f : MindMapFile.t) : bool :=
  opt_is (activeFileId s) (MindMapFile.id f).

Definition with_files (fs : list MindMapFile.t) (s : AppState) : AppState :=
  mkState fs (activeFileId s) (breadcrumb s) (undoStack s) (redoStack s)
          (layoutMode s).

Definition setNodes (now : Z) (ns : list GNode) (s : AppState) : AppState :=
  with_files
    (map (fun f => if is_active s f then MindMapFile.with_nodes ns now f else f)
         (files s)) s.

Definition setEdges (now : Z) (es : list Edge.t) (s : AppState) : AppState :=
  with_files
    (map (fun f => if is_active s f then MindMapFile.with_edges es now f else f)
         (files s)) s.

(** [s.files.find((f) => f.id === s.activeFileId)] *)
Definition activeFile (s : AppState) : option MindMapFile.t :=
  find (is_active s) (files s).

Definition pushUndo (snapshot : Snapshot) (s : AppState) : AppState :=
  mkState (files s) (activeFileId s) (breadcrumb s)
          (slice_last MAX_UNDO (undoStack s) ++ [snapshot])
          []
          (layoutMode s).

(** [undo]: both early returns, then the stacks are written, then the
    document ([setNodes], [setEdges]). *)
Definition undo (now : Z) (s : AppState) : AppState :=
  match last (undoStack s), activeFile s with
  | Some prev, Some file =>
      let current := mkSnapshot (MindMapFile.nodes file) (MindMapFile.edges file) in
      let s1 := mkState (files s) (activeFileId s) (breadcrumb s)
                        (slice_init (undoStack s))
                        (redoStack s ++ [current])
                        (layoutMode s) in
      setEdges now (snap_edges prev) (setNodes now (snap_nodes prev) s1)
  | _, _ => s
  end.

Definition redo (now : Z) (s : AppState) : AppState :=
  match last (redoStack s), activeFile s with
  | Some next, Some file =>
      let current := mkSnapshot (MindMapFile.nodes file) (MindMapFile.edges file) in
      let s1 := mkState (files s) (activeFileId s) (breadcrumb s)
                        (undoStack s ++ [current])
                        (slice_init (redoStack s))
                        (layoutMode s) in
      setEdges now (snap_edges next) (setNodes now (snap_nodes next) s1)
  | _, _ => s
  end.

(** The (nodes, edges) pair of the active document, when there is one. *)
Definition activePair (s : AppState) : option Snapshot :=
  option_map (fun f => mkSnapshot (MindMapFile.nodes f) (MindMapFile.edges f))
             (activeFile s).

(* ===================================================================== *)
(** * The canvas (Canvas.tsx): local node and edge lists                 *)
(* ===================================================================== *)

(** React Flow's local state of the canvas ([useNodesState],
    [useEdgesState]). *)
Record Canvas := mkCanvas {
  cnodes : list GNode;
  cedges : list Edge.t;
}.

(** [snapshot()]: [pushUndo({ nodes: [...nodes], edges: [...edges] })]. *)
Definition snapshot (c : Canvas) (s : AppState) : AppState :=
  pushUndo (mkSnapshot (cnodes c) (cedges c)) s.

(** [nodes.find((n) => n.id === nodeId)] *)
Definition findNode (nodeId : string) (ns : list GNode) : option GNode :=
  find (fun n => String.eqb (Node.id n) nodeId) ns.

(** The two [setNodes]/[setEdges] updaters every delete path uses. *)
Definition removeNode (nodeId : string) (ns : list GNode) : list GNode :=
  List.filter (fun n => negb (String.eqb (Node.id n) nodeId)) ns.

Definition removeEdgesOf (nodeId : string) (es : list Edge.t) : list Edge.t :=
  List.filter (fun ed => negb (String.eqb (Edge.source ed) nodeId)
                         && negb (String.eqb (Edge.target ed) nodeId)) es.

(** [nds.map((n) => n.id === nodeId ? { ...n, data: d n.data } : n)] *)
Definition mapNodeData (nodeId : string) (d : NodeData -> NodeData)
    (ns : list GNode) : list GNode :=
  map (fun n => if String.eqb (Node.id n) nodeId
                then Node.with_data (d (Node.data n)) n else n) ns.

Definition portalOn (subFile : string) (d : NodeData) : NodeData :=
  mkData (label d) true (color d) (Some subFile).

Definition portalOff (d : NodeData) : NodeData :=
  mkData (label d) false (color d) (subFileId d).

(** Actions of the [nodeAction] event that edit without computing a
    trigonometric position. *)
Inductive Action := ActDelete | ActTogglePortal | ActDuplicate.

(** [handleNodeAction]: look the node up, return when it is absent,
    snapshot, then dispatch on the action.  [uid] and [now] are the
    values [uid()] and [Date.now()] give if they are called. *)
Definition handleNodeAction (uid : string) (now : Z) (nodeId : string)
    (action : Action) (st : AppState * Canvas) : AppState * Canvas :=
  let '(s, c) := st in
  match findNode nodeId (cnodes c) with
  | None => st
  | Some node =>
      let s1 := snapshot c s in
      match action with
      | ActDelete =>
          (s1, mkCanvas (removeNode nodeId (cnodes c))
                        (removeEdgesOf nodeId (cedges c)))
      | ActTogglePortal =>
          if negb (isPortal (Node.data node)) then
            let '(s2, sub) :=
              createFile uid now (Some (String.append "Sub: " (label (Node.data node))))
                         (activeFileId s1) (Some nodeId) s1 in
            (s2, mkCanvas (mapNodeData nodeId (portalOn sub) (cnodes c))
                          (cedges c))
          else
            (s1, mkCanvas (mapNodeData nodeId portalOff (cnodes c)) (cedges c))
      | ActDuplicate =>
          let d := Node.data node in
          let newNode :=
            Node.mk uid "editable"
              (mkXY (x (Node.position node) + 40) (y (Node.position node) + 40))
              (mkData (String.append (label d) " (copy)") (isPortal d) (color d) (subFileId d))
              false in
          (s1, mkCanvas (cnodes c ++ [newNode]) (cedges c))
      end
  end.

(** The Delete / Backspace branch of [onKeyDown]: acts on the first
    selected node; nothing happens when the key event comes from an
    input or a text area. *)
Definition onKeyDown_delete (targetIsInput : bool) (st : AppState * Canvas)
    : AppState * Canvas :=
  let '(s, c) := st in
  match find (fun n => Node.selected n) (cnodes c) with
  | None => st
  | Some sel =>
      if targetIsInput then st
      else (snapshot c s,
            mkCanvas (removeNode (Node.id sel) (cnodes c))
                     (removeEdgesOf (Node.id sel) (cedges c)))
  end.

(* ===================================================================== *)
(** * Collision resolver (Canvas.tsx)                                    *)
(* ===================================================================== *)

Definition APPROX_NODE_W : Z := 240.
Definition APPROX_NODE_H : Z := 120.
Definition COLLISION_PAD : Z := 40.

Record Rect := mkRect { x1 : Z; y1 : Z; x2 : Z; y2 : Z }.

Definition rect (n : GNode) : Rect :=
  mkRect (x (Node.position n)) (y (Node.position n))
         (x (Node.position n) + APPROX_NODE_W)
         (y (Node.position n) + APPROX_NODE_H).

Definition overlaps (a b : Rect) : bool :=
  (x1 a <? x2 b) && (x2 a >? x1 b) && (y1 a <? y2 b) && (y2 a >? y1 b).

(** [lockedId && b.id === lockedId]: an absent and an empty
    [lockedId] are both falsy. *)
Definition is_locked (lockedId : option string) (b : GNode) : bool :=
  match lockedId with
  | Some l => negb (String.eqb l EmptyString) && String.eqb (Node.id b) l
  | None => false
  end.

(** What the loop body writes into [b] once the pair is known to
    overlap: the position of [b] moved away from [a]. *)
Definition displace (mode : LayoutMode) (a b : GNode) : GNode :=
  let ax := x (Node.position a) + APPROX_NODE_W / 2 in
  let ay := y (Node.position a) + APPROX_NODE_H / 2 in
  let bx := x (Node.position b) + APPROX_NODE_W / 2 in
  let by_ := y (Node.position b) + APPROX_NODE_H / 2 in
  let pushRight := bx >=? ax in
  let pushDown := by_ >=? ay in
  let dx := (APPROX_NODE_W + COLLISION_PAD) * (if pushRight then 1 else -1) in
  let dy := (APPROX_NODE_H + COLLISION_PAD) * (if pushDown then 1 else -1) in
  match mode with
  | orgchart =>
      Node.with_position (mkXY (x (Node.position b) + dx) (y (Node.position b))) b
  | logic =>
      Node.with_position (mkXY (x (Node.position b)) (y (Node.position b) + dy)) b
  | mindmap =>
      Node.with_position (mkXY (x (Node.position b)) (y (Node.position b) + dy)) b
  end.

(** Body of the inner loop for the ordered pair ([i], [j]); the state is
    the array and the [moved] flag. *)
Definition visit (mode : LayoutMode) (lockedId : option string)
    (i j : nat) (st : list GNode * bool) : list GNode * bool :=
  if (i =? j)%nat then st
  else
    match fst st !! i, fst st !! j with
    | Some a, Some b =>
        if is_locked lockedId b then st
        else if negb (overlaps (rect a) (rect b)) then st
        else (<[j := displace mode a b]> (fst st), true)
    | _, _ => st
    end.

(** One iteration of the outer [for]: [moved] starts false, then every
    ordered pair of indices in row-major order. *)
Definition pass (mode : LayoutMode) (lockedId : option string)
    (ns : list GNode) : list GNode * bool :=
  let idx := seq 0 (length ns) in
  fold_left
    (fun st i => fold_left (fun st' j => visit mode lockedId i j st') idx st)
    idx (ns, false).

(** [for (iter = 0; iter < budget; iter++) { pass; if (!moved) break; }],
    returning the array together with the number of passes performed. *)
Fixpoint relax (mode : LayoutMode) (lockedId : option string)
    (budget : nat) (ns : list GNode) : list GNode * nat :=
  match budget with
  | O => (ns, O)
  | S budget' =>
      let '(ns', moved) := pass mode lockedId ns in
      if moved then
        let '(r, k) := relax mode lockedId budget' ns' in (r, S k)
      else (ns', 1%nat)
  end.

(** [inputNodes.map((n) => ({ ...n, position: { ...n.position } }))] *)
Definition copyNodes (ns : list GNode) : list GNode :=
  map (fun n => Node.with_position
                  (mkXY (x (Node.position n)) (y (Node.position n))) n) ns.

Definition resolveCollisions (inputNodes : list GNode) (mode : LayoutMode)
    (lockedId : option string) : list GNode :=
  fst (relax mode lockedId 20 (copyNodes inputNodes)).

(** Number of passes [resolveCollisions] performs on an input. *)
Definition passesPerformed (inputNodes : list GNode) (mode : LayoutMode)
    (lockedId : option string) : nat :=
  snd (relax mode lockedId 20 (copyNodes inputNodes)).

(** A node with its position forgotten: every other field. *)
Definition otherFields (n : GNode) : string * string * NodeData * bool :=
  (Node.id n, Node.type n, Node.data n, Node.selected n).

(* ===================================================================== *)
(** * JSON import (lib/exportUtils.ts, Toolbar.handleImport)             *)
(* ===================================================================== *)

(** What [JSON.parse] returned, seen through the static type
    [importJSON] gives it.  [JNull] is the value of the text [null].
    Every other value is a [JValue]: its [nodes] and [edges] properties,
    [None] when the property is missing, [undefined] or [null] (a
    number, a string, a boolean or an array has neither property). *)
Inductive Json :=
| JNull
| JValue (nodes : option (list GNode)) (edges : option (list Edge.t)).

(** Outcome of [JSON.parse(text)]: [None] when it throws a
    [SyntaxError]. *)
Definition ParseOutcome := option Json.

Inductive Promise (A : Type) :=
| Resolved (v : A)
| Rejected (message : string).
Arguments Resolved {A} _.
Arguments Rejected {A} _.

(** [json.nodes]: reading a property of [null] throws a [TypeError]
    ([None]); otherwise the property, possibly nullish. *)
Definition read_nodes (j : Json) : option (option (list GNode)) :=
  match j with
  | JNull => None
  | JValue ns _ => Some ns
  end.

Definition read_edges (j : Json) : option (option (list Edge.t)) :=
  match j with
  | JNull => None
  | JValue _ es => Some es
  end.

(** [importJSON]: everything inside the [try] that throws, rejects. *)
Definition importJSON (payload : ParseOutcome) : Promise Snapshot :=
  match payload with
  | None => Rejected "Invalid JSON"
  | Some json =>
      match read_nodes json, read_edges json with
      | Some ns, Some es => Resolved (mkSnapshot (default [] ns) (default [] es))
      | _, _ => Rejected "Invalid JSON"
      end
  end.

(** [handleImport]: no file chosen, nothing happens; a resolved import
    is written to the active document; a rejected one raises the alert
    (second component) and writes nothing. *)
Definition handleImport (now : Z) (file : option ParseOutcome) (s : AppState)
    : AppState * option string :=
  match file with
  | None => (s, None)
  | Some payload =>
      match importJSON payload with
      | Resolved r => (setEdges now (snap_edges r) (setNodes now (snap_nodes r) s), None)
      | Rejected _ => (s, Some "Failed to import: invalid JSON file")
      end
  end.

(* ===================================================================== *)
(** * Reachable store states                                             *)
(* ===================================================================== *)

Definition initialState : AppState :=
  mkState [] None [] [] [] mindmap.

(** One call of a store operation. *)
Inductive StoreStep : AppState -> AppState -> Prop :=
| step_createFile uid now name pf pn s :
    StoreStep s (fst (createFile uid now name pf pn s))
| step_deleteFile id s : StoreStep s (deleteFile id s)
| step_setActiveFile id s : StoreStep s (setActiveFile id s)
| step_pushBreadcrumb id s : StoreStep s (pushBreadcrumb id s)
| step_popBreadcrumb s : StoreStep s (popBreadcrumb s)
| step_setNodes now ns s : StoreStep s (setNodes now ns s)
| step_setEdges now es s : StoreStep s (setEdges now es s)
| step_pushUndo snap s : StoreStep s (pushUndo snap s)
| step_undo now s : StoreStep s (undo now s)
| step_redo now s : StoreStep s (redo now s).

Inductive Reachable : AppState -> Prop :=
| reach_init : Reachable initialState
| reach_step s s' : Reachable s -> StoreStep s s' -> Reachable s'.

(** Documents whose [parentNodeId] is the given node id. *)
Definition portalDocs (nodeId : string) (s : AppState) : list MindMapFile.t :=
  List.filter (fun f => opt_is (MindMapFile.parentNodeId f) nodeId) (files s).


(* ===================================================================== *)
(** * Sample inputs                                                      *)
(* ===================================================================== *)

Definition rootNode : GNode :=
  Node.mk "root" "editable" (mkXY 0 0) (mkData "Central Idea" false EmptyString None) false.

(** A store holding one active top-level document ["a"]. *)
Definition oneFileState : AppState :=
  fst (createFile "a" 0 None None None initialState).

Definition rootPair : Snapshot := mkSnapshot [rootNode] [].
Definition emptyPair : Snapshot := mkSnapshot [] [].

(** [n] consecutive calls of a store operation. *)
Definition repeatOp (n : nat) (op : AppState -> AppState) (s : AppState)
    : AppState :=
  Nat.iter n op s.

(** Three documents: top-level ["c"] and ["a"], and ["b"], the
    sub-map of the root node of ["a"], which is the active one. *)
Definition nestedState : AppState :=
  fst (createFile "b" 2 (Some "Sub: Central Idea") (Some "a") (Some "root")
    (fst (createFile "a" 1 None None None
      (fst (createFile "c" 0 None None None initialState))))).

(** Portal uniqueness: no node id owns two documents. *)
Definition PortalUnique (s : AppState) : Prop :=
  forall nodeId, (length (portalDocs nodeId s) <= 1)%nat.

(** Make the root node of document ["a"] a portal, go back to ["a"],
    remove the portal, make it a portal again. *)
Definition portalOnce : AppState * Canvas :=
  handleNodeAction "p1" 1 "root" ActTogglePortal
    (oneFileState, mkCanvas [rootNode] []).

Definition portalBack : AppState * Canvas :=
  (setActiveFile "a" (fst portalOnce), snd portalOnce).

Definition portalRemoved : AppState * Canvas :=
  handleNodeAction "u2" 2 "root" ActTogglePortal portalBack.

Definition portalAgain : AppState * Canvas :=
  handleNodeAction "p2" 3 "root" ActTogglePortal portalRemoved.

(** The canvas showing the active document of a store. *)
Definition canvasOf (s : AppState) : Canvas :=
  match activeFile s with
  | Some f => mkCanvas (MindMapFile.nodes f) (MindMapFile.edges f)
  | None => mkCanvas [] []
  end.

(** Make the root node of ["a"] a portal, then, inside the new
    sub-map, make its own root node a portal. *)
Definition portalNested : AppState * Canvas :=
  handleNodeAction "q2" 2 "root" ActTogglePortal
    (fst portalOnce, canvasOf (fst portalOnce)).

(** The array after [k] full passes. *)
Definition passN (mode : LayoutMode) (lockedId : option string) (k : nat)
    (ns : list GNode) : list GNode :=
  Nat.iter k (fun l => fst (pass mode lockedId l)) ns.
Arguments passN : simpl never.

(** What the resolver may do to a node: every field but the position
    stays, and a locked node stays altogether. *)
Definition keeps (lockedId : option string) (n n' : GNode) : Prop :=
  otherFields n = otherFields n' /\ (is_locked lockedId n = true -> n' = n).

(** An edge that has the node as its source or as its target. *)
Definition touches (nodeId : string) (ed : Edge.t) : bool :=
  String.eqb (Edge.source ed) nodeId || String.eqb (Edge.target ed) nodeId.

(** Two nodes on top of each other. *)
Definition nodeAt (id : string) (px py : Z) : GNode :=
  Node.mk id "editable" (mkXY px py) (mkData "Child" false EmptyString None) false.

Definition stackedPair : list GNode := [nodeAt "a" 0 0; nodeAt "b" 10 10].

(** A root with three children, as three [addChild] calls leave it. *)
Definition edgeBetween (src tgt : string) : Edge.t :=
  Edge.mk (String.append "e-" (String.append src (String.append "-" tgt)))
          src tgt None None.

Definition fanCanvas : Canvas :=
  mkCanvas
    [rootNode; nodeAt "c1" 0 (-220); nodeAt "c2" 190 (-110); nodeAt "c3" 190 110]
    [edgeBetween "root" "c1"; edgeBetween "root" "c2"; edgeBetween "root" "c3"].

(* ===================================================================== *)
(** * The store: the remaining operations                                *)
(* ===================================================================== *)

(** [{ ...f, name, updatedAt }] *)
Definition file_with_name (name : string) (now : Z) (f : MindMapFile.t)
    : MindMapFile.t :=
  MindMapFile.mk (MindMapFile.id f) name (MindMapFile.pinned f)
    (MindMapFile.parentFileId f) (MindMapFile.parentNodeId f)
    (MindMapFile.nodes f) (MindMapFile.edges f) (MindMapFile.createdAt f) now.

(** [{ ...f, pinned: !f.pinned, updatedAt }] *)
Definition file_toggle_pinned (now : Z) (f : MindMapFile.t) : MindMapFile.t :=
  MindMapFile.mk (MindMapFile.id f) (MindMapFile.name f)
    (negb (MindMapFile.pinned f))
    (MindMapFile.parentFileId f) (MindMapFile.parentNodeId f)
    (MindMapFile.nodes f) (MindMapFile.edges f) (MindMapFile.createdAt f) now.

Definition renameFile (now : Z) (id name : string) (s : AppState) : AppState :=
  with_files
    (map (fun f => if String.eqb (MindMapFile.id f) id
                   then file_with_name name now f else f)
         (files s)) s.

(** [updateNodes(updater)]: nothing without an active document. *)
Definition updateNodes (now : Z) (updater : list GNode -> list GNode)
    (s : AppState) : AppState :=
  match activeFile s with
  | None => s
  | Some file => setNodes now (updater (MindMapFile.nodes file)) s
  end.

Definition updateEdges (now : Z) (updater : list Edge.t -> list Edge.t)
    (s : AppState) : AppState :=
  match activeFile s with
  | None => s
  | Some file => setEdges now (updater (MindMapFile.edges file)) s
  end.

(** [arr.findIndex(p)]; [None] is the -1 of JavaScript. *)
Fixpoint findIndex {A} (p : A -> bool) (l : list A) : option nat :=
  match l with
  | [] => None
  | a :: l' => if p a then Some O else option_map S (findIndex p l')
  end.

(** [arr.splice(i, 0, v)] on a copy: [v] put in at index [i] (at the
    end when [i] is past it). *)
Definition splice_in {A} (i : nat) (v : A) (l : list A) : list A :=
  take i l ++ v :: drop i l.

(** [a === b] for two nullable strings. *)
Definition opt_eqb (a b : option string) : bool :=
  match a, b with
  | Some u, Some v => String.eqb u v
  | None, None => true
  | _, _ => false
  end.

(** [arr.map((f, i) => ({ f, i })).filter((x) => p(x.f)).map((x) => x.i)] *)
Definition indicesWhere {A} (p : A -> bool) (l : list A) : list nat :=
  List.filter (fun i => match l !! i with
                        | Some a => p a
                        | None => false
                        end)
              (seq 0 (length l)).

Definition has_id (id : string) (f : MindMapFile.t) : bool :=
  String.eqb (MindMapFile.id f) id.

Definition togglePin (now : Z) (id : string) (s : AppState) : AppState :=
  let next := files s in
  match findIndex (has_id id) next with
  | None => with_files next s
  | Some idx =>
      match next !! idx with
      | None => with_files next s
      | Some file =>
          let updated := file_toggle_pinned now file in
          let next1 := delete idx next in
          let groupIndices :=
            indicesWhere (fun f => opt_eqb (MindMapFile.parentFileId f)
                                           (MindMapFile.parentFileId file))
                         next1 in
          match groupIndices with
          | [] => with_files (next1 ++ [updated]) s
          | first :: _ =>
              let firstUnpinnedInGroup :=
                find (fun gi => match next1 !! gi with
                                | Some f => negb (MindMapFile.pinned f)
                                | None => false
                                end) groupIndices in
              let insertIndex :=
                if MindMapFile.pinned updated then first
                else match firstUnpinnedInGroup with
                     | Some gi => gi
                     | None => (List.last groupIndices first + 1)%nat
                     end in
              with_files (splice_in insertIndex updated next1) s
          end
      end
  end.

Definition reorderFiles (sourceId targetId : string) (s : AppState) : AppState :=
  if String.eqb sourceId targetId then s
  else
    let next := files s in
    match findIndex (has_id sourceId) next, findIndex (has_id targetId) next with
    | Some sourceIndex, Some targetIndex =>
        match next !! sourceIndex, next !! targetIndex with
        | Some source, Some target =>
            if negb (opt_eqb (MindMapFile.parentFileId source)
                             (MindMapFile.parentFileId target)) then s
            else if negb (Bool.eqb (MindMapFile.pinned source)
                                   (MindMapFile.pinned target)) then s
            else
              let next1 := delete sourceIndex next in
              match findIndex (has_id targetId) next1 with
              | None => s
              | Some newTargetIndex =>
                  with_files (splice_in newTargetIndex source next1) s
              end
        | _, _ => s
        end
    | _, _ => s
    end.

(** The document tree as the sidebar and the portals see it: id,
    parent document, owning node and pin of every document, in order. *)
Definition treeOf (s : AppState)
    : list (string * option string * option string * bool) :=
  map (fun f => (MindMapFile.id f, MindMapFile.parentFileId f,
                 MindMapFile.parentNodeId f, MindMapFile.pinned f))
      (files s).

(** Inside every group of documents with the same parent, no unpinned
    document stands before a pinned one. *)
Definition PinSorted (fs : list MindMapFile.t) : Prop :=
  forall i j f g,
    (i < j)%nat -> fs !! i = Some f -> fs !! j = Some g ->
    MindMapFile.parentFileId f = MindMapFile.parentFileId g ->
    MindMapFile.pinned g = true -> MindMapFile.pinned f = true.

(* ===================================================================== *)
(** * Node component (EditableNode.tsx) and breadcrumb bar               *)
(* ===================================================================== *)

Definition commitLabel (now : Z) (id newLabel : string) (s : AppState)
    : AppState :=
  updateNodes now
    (mapNodeData id (fun d => mkData newLabel (isPortal d) (color d) (subFileId d)))
    s.

Definition setColor (now : Z) (id newColor : string) (s : AppState)
    : AppState :=
  updateNodes now
    (mapNodeData id (fun d => mkData (label d) (isPortal d) newColor (subFileId d)))
    s.

(** Click on entry [i] of the breadcrumb bar:
    [const store = getState(); while (store.breadcrumb.length > i + 1)
    store.popBreadcrumb();].  [store] is the state object read once
    before the loop ([stale]); [popBreadcrumb] acts on the live state.
    [None]: the loop has not ended within [fuel] iterations. *)
Fixpoint breadcrumbClick (fuel : nat) (i : nat) (stale live : AppState)
    : option AppState :=
  if (i + 1 <? length (breadcrumb stale))%nat then
    match fuel with
    | O => None
    | S fuel' => breadcrumbClick fuel' i stale (popBreadcrumb live)
    end
  else Some live.

(* ===================================================================== *)
(** * The canvas: more of [handleNodeAction]                             *)
(* ===================================================================== *)

(** The anchor handles [edgeTemplate] adds to an edge
    ([sourceHandle], [targetHandle]); its styling fields are not part
    of [Edge.t]. *)
Definition edgeTemplate (m : LayoutMode) : option string * option string :=
  match m with
  | orgchart => (Some "bottom", Some "top")
  | logic => (Some "right", Some "left")
  | mindmap => (None, None)
  end.

(** [{ id: `e-${src}-${tgt}`, source: src, target: tgt, ...edgeTemplate }] *)
Definition templateEdge (m : LayoutMode) (src tgt : string) : Edge.t :=
  Edge.mk (String.append "e-" (String.append src (String.append "-" tgt)))
          src tgt (fst (edgeTemplate m)) (snd (edgeTemplate m)).

(** The [addParent] case of [handleNodeAction]: a new node 150 above
    the node, the edges into the node re-targeted to it. *)
Definition addParent (uid : string) (nodeId : string)
    (st : AppState * Canvas) : AppState * Canvas :=
  let '(s, c) := st in
  match findNode nodeId (cnodes c) with
  | None => st
  | Some node =>
      let s1 := snapshot c s in
      let parentId := uid in
      let newParent :=
        Node.mk parentId "editable"
          (mkXY (x (Node.position node)) (y (Node.position node) - 150))
          (mkData "Parent" false EmptyString None) false in
      let currentParentEdges :=
        List.filter (fun ed => String.eqb (Edge.target ed) nodeId) (cedges c) in
      let updatedEdges :=
        List.filter (fun ed => negb (String.eqb (Edge.target ed) nodeId))
                    (cedges c) in
      let newEdgeToNode := templateEdge (layoutMode s) parentId nodeId in
      let newParentEdges :=
        map (fun edge => templateEdge (layoutMode s) (Edge.source edge) parentId)
            currentParentEdges in
      (s1, mkCanvas (cnodes c ++ [newParent])
                    (updatedEdges ++ [newEdgeToNode] ++ newParentEdges))
  end.

(** Edge-endpoint invariant: both ends of every edge are nodes of the
    canvas. *)
Definition EdgesClosed (c : Canvas) : Prop :=
  forall ed, In ed (cedges c) ->
    In (Edge.source ed) (map Node.id (cnodes c))
    /\ In (Edge.target ed) (map Node.id (cnodes c)).

(** The (nodes, edges) pair the canvas shows. *)
Definition canvasPair (c : Canvas) : Snapshot :=
  mkSnapshot (cnodes c) (cedges c).


(* ===================================================================== *)
(** * Layout engine (lib/layoutEngine.ts)                                *)
(* ===================================================================== *)

Definition NODE_WIDTH : Z := 200.
Definition NODE_HEIGHT : Z := 60.

(** [applyLayout].  The layered layout itself is the work of the dagre
    library; [dagreNode] stands for [g.node(id)] after [dagre.layout(g)],
    the centre dagre has given to the node registered under [id]. *)
Definition applyLayout (dagreNode : string -> XY Z)
    (nodes : list GNode) (edges : list Edge.t) (mode : LayoutMode)
    : list GNode * list Edge.t :=
  match nodes with
  | [] => (nodes, edges)
  | _ =>
      (map (fun node =>
              let pos := dagreNode (Node.id node) in
              Node.with_position
                (mkXY (x pos - NODE_WIDTH / 2) (y pos - NODE_HEIGHT / 2)) node)
           nodes,
       edges)
  end.

(* ===================================================================== *)
(** * Canvas and store together: the debounced save                      *)
(* ===================================================================== *)

(** Body of the auto-save timer ([storeSetNodes(nodes);
    storeSetEdges(edges)]): it runs 300 ms after the last change of the
    canvas; until then the store holds what it held before. *)
Definition autoSave (now : Z) (c : Canvas) (s : AppState) : AppState :=
  setEdges now (cedges c) (setNodes now (cnodes c) s).

(** The store after the fan canvas has been saved into document ["a"]. *)
Definition fanState : AppState := autoSave 0 fanCanvas oneFileState.

(* ===================================================================== *)
(** * Collision resolver on IEEE doubles                                 *)
(* ===================================================================== *)

(** The loop of [resolveCollisions] once more, with the coordinates as
    the program has them: binary64 numbers.  [+], [*], [/] and the
    comparisons are the IEEE 754 operations of Rocq's primitive floats
    ([a > b] is written [b <? a], [a >= b] is [b <=? a]; every
    comparison with a NaN is false, as in JavaScript). *)
Module Doubles.
Local Open Scope float_scope.

Abbreviation FNode := (Node.t float).

Definition APPROX_NODE_W : float := 240.
Definition APPROX_NODE_H : float := 120.
Definition COLLISION_PAD : float := 40.

Record Rect := mkRect { x1 : float; y1 : float; x2 : float; y2 : float }.

Definition rect (n : FNode) : Rect :=
  mkRect (x (Node.position n)) (y (Node.position n))
         (x (Node.position n) + APPROX_NODE_W)
         (y (Node.position n) + APPROX_NODE_H).

Definition overlaps (a b : Rect) : bool :=
  (x1 a <? x2 b) && (x1 b <? x2 a) && (y1 a <? y2 b) && (y1 b <? y2 a).

(** [lockedId && b.id === lockedId] *)
Definition is_locked (lockedId : option string) (b : FNode) : bool :=
  match lockedId with
  | Some l => negb (String.eqb l EmptyString) && String.eqb (Node.id b) l
  | None => false
  end.


Definition displace (mode : LayoutMode) (a b : FNode) : FNode :=
  let ax := x (Node.position a) + APPROX_NODE_W / 2 in
  let ay := y (Node.position a) + APPROX_NODE_H / 2 in
  let bx := x (Node.position b) + APPROX_NODE_W / 2 in
  let by_ := y (Node.position b) + APPROX_NODE_H / 2 in
  let pushRight := ax <=? bx in
  let pushDown := ay <=? by_ in
  let dx := (APPROX_NODE_W + COLLISION_PAD) * (if pushRight then 1 else -1) in
  let dy := (APPROX_NODE_H + COLLISION_PAD) * (if pushDown then 1 else -1) in
  match mode with
  | orgchart =>
      Node.with_position (mkXY (x (Node.position b) + dx) (y (Node.position b))) b
  | logic =>
      Node.with_position (mkXY (x (Node.position b)) (y (Node.position b) + dy)) b
  | mindmap =>
      Node.with_position (mkXY (x (Node.position b)) (y (Node.position b) + dy)) b
  end.

(** Body of the inner loop for the ordered pair ([i], [j]). *)
Definition visit (mode : LayoutMode) (lockedId : option string)
    (i j : nat) (st : list FNode * bool) : list FNode * bool :=
  if (i =? j)%nat then st
  else
    match fst st !! i, fst st !! j with
    | Some a, Some b =>
        if is_locked lockedId b then st
        else if negb (overlaps (rect a) (rect b)) then st
        else (<[j := displace mode a b]> (fst st), true)
    | _, _ => st
    end.

(** One iteration of the outer [for]. *)
Definition pass (mode : LayoutMode) (lockedId : option string)
    (ns : list FNode) : list FNode * bool :=
  let idx := seq 0 (length ns) in
  fold_left
    (fun st i => fold_left (fun st' j => visit mode lockedId i j st') idx st)
    idx (ns, false).

Fixpoint relax (mode : LayoutMode) (lockedId : option string)
    (budget : nat) (ns : list FNode) : list FNode * nat :=
  match budget with
  | O => (ns, O)
  | S budget' =>
      let '(ns', moved) := pass mode lockedId ns in
      if moved then
        let '(r, k) := relax mode lockedId budget' ns' in (r, S k)
      else (ns', 1%nat)
  end.

Definition copyNodes (ns : list FNode) : list FNode :=
  map (fun n => Node.with_position
                  (mkXY (x (Node.position n)) (y (Node.position n))) n) ns.

Definition resolveCollisions (inputNodes : list FNode) (mode : LayoutMode)
    (lockedId : option string) : list FNode :=
  fst (relax mode lockedId 20 (copyNodes inputNodes)).

Definition passesPerformed (inputNodes : list FNode) (mode : LayoutMode)
    (lockedId : option string) : nat :=
  snd (relax mode lockedId 20 (copyNodes inputNodes)).

(** The array after [k] full passes. *)
Definition passN (mode : LayoutMode) (lockedId : option string) (k : nat)
    (ns : list FNode) : list FNode :=
  Nat.iter k (fun l => fst (pass mode lockedId l)) ns.
Arguments passN : simpl never.

(** The ordered pairs of indices in the order the two [for] loops reach
    them. *)
Definition pairsOf (n : nat) : list (nat * nat) :=
  flat_map (fun i => map (fun j => (i, j)) (seq 0 n)) (seq 0 n).

(** The loop body run over a stretch of pairs. *)
Definition passFrom (mode : LayoutMode) (lockedId : option string)
    (pairs : list (nat * nat)) (st : list FNode * bool) : list FNode * bool :=
  fold_left (fun st' p => visit mode lockedId (fst p) (snd p) st') pairs st.

Definition otherFields (n : FNode) : string * string * NodeData * bool :=
  (Node.id n, Node.type n, Node.data n, Node.selected n).

(** The node has the same coordinate as before on the axis the mode
    does not push along. *)
Definition keepsOtherAxis (mode : LayoutMode) (n n' : FNode) : Prop :=
  match mode with
  | orgchart => y (Node.position n') = y (Node.position n)
  | _ => x (Node.position n') = x (Node.position n)
  end.


Definition nodeAt (id : string) (px py : float) : FNode :=
  Node.mk id "editable" (mkXY px py) (mkData "Child" false EmptyString None) false.

(** Two nodes on top of each other. *)
Definition stackedPair : list FNode := [nodeAt "a" 0 0; nodeAt "b" 10 10].


(** Two nodes on top of each other at y = 0x1.b7ffffffffffdp+6
    (109.99999999999996), the y at which [getChildPosition] puts the
    third child of a parent at the origin in mindmap mode. *)
Definition radialPair : list FNode :=
  [nodeAt "a" 190 0x1.b7ffffffffffdp+6; nodeAt "b" 190 0x1.b7ffffffffffdp+6].

End Doubles.
(* ===================================================================== *)
(** * Array helpers                                                      *)
(* ===================================================================== *)

Lemma last_push {A} (l : list A) (a : A) : last (l ++ [a]) = Some a.
Proof. apply last_snoc. Qed.

Lemma slice_init_push {A} (l : list A) (a : A) : slice_init (l ++ [a]) = l.
Proof.
  unfold slice_init. rewrite length_app. simpl.
  replace (length l + 1 - 1)%nat with (length l) by lia.
  by rewrite take_app_length.
Qed.

Lemma slice_last_length {A} (n : nat) (l : list A) :
  length (slice_last n l) = Nat.min n (length l).
Proof. unfold slice_last. rewrite length_drop. lia. Qed.

Lemma slice_init_length {A} (l : list A) :
  length (slice_init l) = (length l - 1)%nat.
Proof. unfold slice_init. rewrite length_take. lia. Qed.

Lemma find_map_update {A} (p : A -> bool) (g : A -> A) (l : list A) :
  (forall a, p (g a) = p a) ->
  find p (map (fun a => if p a then g a else a) l) = option_map g (find p l).
Proof.
  intros Hp. induction l as [|a l IH]; simpl; [reflexivity|].
  destruct (p a) eqn:Ha.
  - by rewrite Hp, Ha.
  - by rewrite Ha.
Qed.

(* ===================================================================== *)
(** * History: undo and redo                                             *)
(* ===================================================================== *)

Lemma activeFile_setNodes now ns s :
  activeFile (setNodes now ns s)
  = option_map (MindMapFile.with_nodes ns now) (activeFile s).
Proof.
  unfold activeFile, setNodes. simpl.
  change (is_active (with_files _ s)) with (is_active s).
  apply (find_map_update (is_active s)). reflexivity.
Qed.

Lemma activeFile_setEdges now es s :
  activeFile (setEdges now es s)
  = option_map (MindMapFile.with_edges es now) (activeFile s).
Proof.
  unfold activeFile, setEdges. simpl.
  change (is_active (with_files _ s)) with (is_active s).
  apply (find_map_update (is_active s)). reflexivity.
Qed.

(** Writing both lists of the active document. *)
Lemma activePair_restore now p s :
  is_Some (activeFile s) ->
  activePair (setEdges now (snap_edges p) (setNodes now (snap_nodes p) s))
  = Some p.
Proof.
  intros [f Hf]. unfold activePair.
  rewrite activeFile_setEdges, activeFile_setNodes, Hf.
  destruct p; reflexivity.
Qed.

Lemma undo_spec now s prev cur :
  last (undoStack s) = Some prev ->
  activePair s = Some cur ->
  activePair (undo now s) = Some prev
  /\ undoStack (undo now s) = slice_init (undoStack s)
  /\ redoStack (undo now s) = redoStack s ++ [cur].
Proof.
  intros Hl Hc. unfold activePair in Hc. unfold undo. rewrite Hl.
  destruct (activeFile s) as [f|] eqn:Hf; [|discriminate].
  simpl in Hc. injection Hc as <-.
  split; [|split; reflexivity].
  apply activePair_restore. exists f. exact Hf.
Qed.

Lemma redo_spec now s next cur :
  last (redoStack s) = Some next ->
  activePair s = Some cur ->
  activePair (redo now s) = Some next
  /\ undoStack (redo now s) = undoStack s ++ [cur]
  /\ redoStack (redo now s) = slice_init (redoStack s).
Proof.
  intros Hl Hc. unfold activePair in Hc. unfold redo. rewrite Hl.
  destruct (activeFile s) as [f|] eqn:Hf; [|discriminate].
  simpl in Hc. injection Hc as <-.
  split; [|split; reflexivity].
  apply activePair_restore. exists f. exact Hf.
Qed.

(** The inverse law on the store alone: once the store holds the pair
    an operation has produced (that is, after the debounced save), with
    the snapshot [pre] on top of the undo stack and an empty redo stack,
    [undo] makes the active pair [pre] and [redo] makes it the produced
    pair again. *)
Lemma store_undo_redo_inverse (s1 : AppState) (pre post : Snapshot)
    (now1 now2 : Z) :
  last (undoStack s1) = Some pre ->
  activePair s1 = Some post ->
  activePair (undo now1 s1) = Some pre
  /\ activePair (redo now2 (undo now1 s1)) = Some post.
Proof.
  intros Hlast Hpost.
  destruct (undo_spec now1 s1 pre post Hlast Hpost) as (Hp & _ & Hredo).
  split; [exact Hp|].
  assert (Hl2 : last (redoStack (undo now1 s1)) = Some post).
  { rewrite Hredo. apply last_push. }
  destruct (redo_spec now2 _ post pre Hl2 Hp) as (Hq & _ & _).
  exact Hq.
Qed.

(** C1. The inverse law fails for [redo] when [undo] comes right after
    the operation.  Every operation that snapshots edits the canvas
    only; the store is written by the debounced save 300 ms later.
    Document ["a"] holds the fan (root, c1, c2, c3) in store and canvas;
    the node menu deletes c2.  [undo] right afterwards leaves the
    document with the pre-operation pair, as the law says; but the pair
    it pushes on the redo stack is the one the store still holds, the
    pre-operation pair, so [redo] right after that [undo] restores the
    pre-operation pair and not the pair without c2.  (Had the save run
    before the [undo], [redo] would restore the pair without c2.) *)
Theorem redo_after_immediate_undo_loses_edit :
  let pre := canvasPair fanCanvas in
  let st := handleNodeAction "u" 1 "c2" ActDelete (fanState, fanCanvas) in
  let post := canvasPair (snd st) in
  Reachable (fst st)
  /\ activePair fanState = Some pre
  /\ post = mkSnapshot [rootNode; nodeAt "c1" 0 (-220); nodeAt "c3" 190 110]
                       [edgeBetween "root" "c1"; edgeBetween "root" "c3"]
  /\ pre <> post
  /\ activePair (fst st) = Some pre
  /\ activePair (undo 2 (fst st)) = Some pre
  /\ activePair (redo 3 (undo 2 (fst st))) = Some pre
  /\ activePair (redo 3 (undo 2 (fst st))) <> Some post
  /\ activePair (redo 3 (undo 2 (autoSave 2 (snd st) (fst st)))) = Some post.
Proof.
  cbv zeta.
  split.
  { eapply reach_step; [|apply step_pushUndo].
    eapply reach_step; [|apply step_setEdges].
    eapply reach_step; [|apply step_setNodes].
    eapply reach_step; [apply reach_init|].
    apply (step_createFile "a" 0 None None None). }
  split; [reflexivity|]. split; [reflexivity|].
  assert (Hne : canvasPair fanCanvas
                <> canvasPair (snd (handleNodeAction "u" 1 "c2" ActDelete
                                      (fanState, fanCanvas)))).
  { intros H. apply (f_equal (fun p => length (snap_nodes p))) in H.
    vm_compute in H. discriminate. }
  split; [exact Hne|].
  split; [reflexivity|]. split; [reflexivity|]. split; [reflexivity|].
  split; [|reflexivity].
  intros H. apply Hne.
  apply (f_equal (fun o => default (canvasPair fanCanvas) o)) in H. exact H.
Qed.

(* ===================================================================== *)
(** * History: size of the stacks                                        *)
(* ===================================================================== *)

Lemma pushUndo_length snap s :
  length (undoStack (pushUndo snap s))
  = S (Nat.min MAX_UNDO (length (undoStack s))).
Proof.
  unfold pushUndo. cbn [undoStack]. rewrite length_app, slice_last_length.
  cbn [length]. lia.
Qed.

(** What the code does guarantee: the two stacks together never hold
    more than [MAX_UNDO + 1] snapshots. *)
Lemma history_bound s :
  Reachable s ->
  (length (undoStack s) + length (redoStack s) <= S MAX_UNDO)%nat.
Proof.
  induction 1 as [|s s' _ IH Hstep]; [simpl; lia|].
  destruct Hstep; simpl; try lia; try exact IH.
  - rewrite length_app, slice_last_length. cbn [length]. lia.
  - unfold undo.
    destruct (last (undoStack s)) as [prev|] eqn:Hl; [|exact IH].
    destruct (activeFile s) as [f|]; [|exact IH].
    simpl. rewrite slice_init_length, length_app. simpl.
    destruct (undoStack s); [discriminate|]. simpl in *. lia.
  - unfold redo.
    destruct (last (redoStack s)) as [next|] eqn:Hl; [|exact IH].
    destruct (activeFile s) as [f|]; [|exact IH].
    simpl. rewrite slice_init_length, length_app. simpl.
    destruct (redoStack s); [discriminate|]. simpl in *. lia.
Qed.

Lemma reachable_repeat (n : nat) (op : AppState -> AppState) s :
  (forall t, StoreStep t (op t)) ->
  Reachable s -> Reachable (repeatOp n op s).
Proof.
  intros Hop Hs. induction n as [|n IH]; [exact Hs|].
  unfold repeatOp in *. simpl. eapply reach_step; [exact IH|apply Hop].
Qed.

Lemma reachable_oneFileState : Reachable oneFileState.
Proof. eapply reach_step; [apply reach_init|apply step_createFile]. Qed.

(** C2. The cap of 50 is missed by one.  [pushUndo] keeps the last
    [MAX_UNDO] entries and then appends, so a push onto a stack of 50
    evicts nothing and leaves 51 entries; undoing them all moves 51
    entries onto the redo stack.  Both states are reachable. *)
Theorem history_exceeds_cap :
  let full := repeatOp 50 (pushUndo rootPair) oneFileState in
  let over := pushUndo emptyPair full in
  let undone := repeatOp 51 (undo 1) over in
  Reachable over /\ Reachable undone
  /\ length (undoStack full) = 50%nat
  /\ undoStack over = undoStack full ++ [emptyPair]
  /\ length (undoStack over) = 51%nat
  /\ length (redoStack undone) = 51%nat.
Proof.
  intros full over undone.
  assert (Hfull : Reachable full).
  { apply reachable_repeat; [intros t; apply step_pushUndo|].
    apply reachable_oneFileState. }
  assert (Hover : Reachable over).
  { eapply reach_step; [exact Hfull|apply step_pushUndo]. }
  split; [exact Hover|]. split.
  { apply reachable_repeat; [intros t; apply step_undo|exact Hover]. }
  repeat split; vm_compute; reflexivity.
Qed.

(* ===================================================================== *)
(** * Documents: deleteFile                                              *)
(* ===================================================================== *)

Lemma opt_is_true a b : opt_is a b = true <-> a = Some b.
Proof.
  destruct a as [s|]; simpl.
  - rewrite String.eqb_eq. split; congruence.
  - split; discriminate.
Qed.

Lemma opt_is_false a b : opt_is a b = false <-> a <> Some b.
Proof.
  rewrite <- opt_is_true. destruct (opt_is a b); split; congruence.
Qed.

(** The documents [deleteFile] keeps: exactly those that are neither the
    document [id] nor a direct child of it. *)
Lemma deleteFile_files id s f :
  In f (files (deleteFile id s))
  <-> In f (files s)
      /\ MindMapFile.id f <> id
      /\ MindMapFile.parentFileId f <> Some id.
Proof.
  unfold deleteFile. simpl. rewrite filter_In, andb_true_iff.
  rewrite !negb_true_iff, String.eqb_neq, opt_is_false. tauto.
Qed.

(** When the deleted document itself is the active one, the first
    remaining document (or none) becomes active. *)
Lemma deleteFile_active_self id s :
  activeFileId s = Some id ->
  activeFileId (deleteFile id s)
  = option_map MindMapFile.id (head (files (deleteFile id s))).
Proof.
  intros H. unfold deleteFile. simpl.
  rewrite (proj2 (opt_is_true _ _) H). reflexivity.
Qed.

(** In every other case the active id is left as it is. *)
Lemma deleteFile_active_other id s :
  activeFileId s <> Some id ->
  activeFileId (deleteFile id s) = activeFileId s.
Proof.
  intros H. unfold deleteFile. simpl.
  rewrite (proj2 (opt_is_false _ _) H). reflexivity.
Qed.

Lemma reachable_nestedState : Reachable nestedState.
Proof.
  unfold nestedState.
  repeat (eapply reach_step; [|apply step_createFile]).
  apply reach_init.
Qed.

(** C4. [deleteFile] with the active document among the removed
    children.  Documents ["c"], ["a"] and ["b"] (child of ["a"]), with
    ["b"] active: deleting ["a"] removes ["a"] and ["b"] and keeps
    ["c"], but the active id stays ["b"], which names no document any
    more, instead of becoming ["c"]. *)
Theorem deleteFile_child_active_dangles :
  Reachable nestedState
  /\ map MindMapFile.id (files nestedState) = ["c"; "a"; "b"]
  /\ activeFileId nestedState = Some "b"
  /\ map MindMapFile.id (files (deleteFile "a" nestedState)) = ["c"]
  /\ activeFileId (deleteFile "a" nestedState) = Some "b"
  /\ activeFile (deleteFile "a" nestedState) = None.
Proof.
  split; [apply reachable_nestedState|].
  repeat split; reflexivity.
Qed.

(* ===================================================================== *)
(** * Documents: portals                                                 *)
(* ===================================================================== *)

Lemma handleNodeAction_reachable uid now nodeId action st :
  Reachable (fst st) ->
  Reachable (fst (handleNodeAction uid now nodeId action st)).
Proof.
  destruct st as [s c]. simpl. intros Hs.
  destruct (findNode nodeId (cnodes c)) as [node|]; [|exact Hs].
  assert (H1 : Reachable (snapshot c s)).
  { eapply reach_step; [exact Hs|apply step_pushUndo]. }
  destruct action; simpl; try exact H1.
  destruct (isPortal (Node.data node)); simpl; [exact H1|].
  eapply reach_step; [exact H1|].
  apply (step_createFile uid now
           (Some (String.append "Sub: " (label (Node.data node))))
           (activeFileId (snapshot c s)) (Some nodeId)).
Qed.

Lemma reachable_portalAgain : Reachable (fst portalAgain).
Proof.
  unfold portalAgain, portalRemoved, portalBack.
  do 2 apply handleNodeAction_reachable. cbn [fst].
  eapply reach_step; [|apply step_setActiveFile].
  unfold portalOnce.
  apply handleNodeAction_reachable. apply reachable_oneFileState.
Qed.

(** C5. Portal uniqueness is not kept.  Toggling the portal of the
    root node of document ["a"] on, off and on again leaves two
    documents, ["p1"] and ["p2"], both children of ["a"] with
    [parentNodeId = "root"]: removing the portal keeps the first
    sub-document and [createFile] appends the second without looking
    for it. *)
Theorem togglePortal_twice_two_documents :
  Reachable (fst portalAgain)
  /\ map MindMapFile.id (files (fst portalRemoved)) = ["a"; "p1"]
  /\ map (fun n => isPortal (Node.data n)) (cnodes (snd portalRemoved)) = [false]
  /\ map MindMapFile.id (portalDocs "root" (fst portalAgain)) = ["p1"; "p2"]
  /\ map MindMapFile.parentFileId (portalDocs "root" (fst portalAgain))
     = [Some "a"; Some "a"]
  /\ ~ PortalUnique (fst portalAgain).
Proof.
  split; [apply reachable_portalAgain|].
  repeat split; try reflexivity.
  intros H. specialize (H "root"). vm_compute in H. lia.
Qed.

(** Node ids are unique per document only: every document starts with
    a node ["root"], so a portal in a sub-map clashes with the portal
    of the same name in its parent. *)
Lemma portal_ids_clash_across_documents :
  Reachable (fst portalNested)
  /\ map MindMapFile.id (portalDocs "root" (fst portalNested)) = ["p1"; "q2"]
  /\ map MindMapFile.parentFileId (portalDocs "root" (fst portalNested))
     = [Some "a"; Some "p1"].
Proof.
  split; [|split; reflexivity].
  unfold portalNested, portalOnce.
  do 2 apply handleNodeAction_reachable. apply reachable_oneFileState.
Qed.

(* ===================================================================== *)
(** * Collision resolver                                                 *)
(* ===================================================================== *)

Section Resolver.
Variable mode : LayoutMode.
Variable lockedId : option string.

Lemma fold_left_inv {A B} (P : A -> Prop) (f : A -> B -> A) (l : list B) (a : A) :
    (forall a' b, P a' -> P (f a' b)) -> P a -> P (fold_left f l a).
  Proof.
    intros Hf. revert a. induction l as [|b l IH]; simpl; intros a Ha.
    - exact Ha.
    - apply IH, Hf, Ha.
  Qed.

  (** Invariants of a pass are invariants of the loop body. *)
Lemma pass_inv (P : list GNode * bool -> Prop) (ns : list GNode) :
    (forall i j st, P st -> P (visit mode lockedId i j st)) ->
    P (ns, false) -> P (pass mode lockedId ns).
  Proof.
    intros Hv H0. unfold pass.
    apply fold_left_inv; [|exact H0].
    intros st i Hst. apply fold_left_inv; [|exact Hst].
    intros st' j Hst'. apply Hv, Hst'.
  Qed.

Lemma is_locked_otherFields (n n' : GNode) :
    otherFields n = otherFields n' ->
    is_locked lockedId n' = is_locked lockedId n.
  Proof.
    unfold otherFields, is_locked. intros H. injection H as Hid _ _ _.
    destruct lockedId; [|reflexivity]. by rewrite Hid.
  Qed.

Lemma keeps_refl n : keeps lockedId n n.
  Proof. split; [reflexivity|intros _; reflexivity]. Qed.

Lemma keeps_trans n1 n2 n3 :
    keeps lockedId n1 n2 -> keeps lockedId n2 n3 -> keeps lockedId n1 n3.
  Proof.
    intros [H12 L12] [H23 L23]. split; [congruence|].
    intros Hl. specialize (L12 Hl). subst n2. apply L23, Hl.
  Qed.

Lemma keeps_displace a b : is_locked lockedId b = false ->
    keeps lockedId b (displace mode a b).
  Proof.
    intros Hb. split.
    - unfold displace. destruct mode; reflexivity.
    - rewrite Hb. discriminate.
  Qed.

Lemma Forall2_keeps_refl ns : Forall2 (keeps lockedId) ns ns.
  Proof. induction ns; constructor; [apply keeps_refl|assumption]. Qed.

Lemma Forall2_keeps_trans l1 l2 l3 :
    Forall2 (keeps lockedId) l1 l2 -> Forall2 (keeps lockedId) l2 l3 ->
    Forall2 (keeps lockedId) l1 l3.
  Proof.
    intros H12. revert l3. induction H12 as [|a b l1 l2 Hab _ IH]; intros l3 H23.
    - inversion H23. constructor.
    - inversion H23 as [|b' c l2' l3' Hbc Hrest]; subst.
      constructor; [eapply keeps_trans; eassumption|apply IH, Hrest].
  Qed.

Lemma visit_keeps ns0 i j st :
    Forall2 (keeps lockedId) ns0 (fst st) ->
    Forall2 (keeps lockedId) ns0 (fst (visit mode lockedId i j st)).
  Proof.
    intros H. unfold visit.
    destruct (i =? j)%nat; [exact H|].
    destruct (fst st !! i) as [a|]; [|exact H].
    destruct (fst st !! j) as [b|] eqn:Hj; [|exact H].
    destruct (is_locked lockedId b) eqn:Hb; [exact H|].
    destruct (negb (overlaps (rect a) (rect b))); [exact H|].
    cbn [fst].
    destruct (Forall2_lookup_r _ _ _ _ _ H Hj) as (n0 & H0 & Hk).
    rewrite <- (list_insert_id ns0 j n0 H0).
    apply Forall2_insert; [exact H|].
    eapply keeps_trans; [exact Hk|apply keeps_displace, Hb].
  Qed.

Lemma pass_keeps ns :
    Forall2 (keeps lockedId) ns (fst (pass mode lockedId ns)).
  Proof.
    apply (pass_inv (fun st => Forall2 (keeps lockedId) ns (fst st))).
    - intros i j st. apply visit_keeps.
    - apply Forall2_keeps_refl.
  Qed.

Lemma relax_keeps budget ns :
    Forall2 (keeps lockedId) ns (fst (relax mode lockedId budget ns)).
  Proof.
    revert ns. induction budget as [|b IH]; intros ns; simpl.
    - apply Forall2_keeps_refl.
    - pose proof (pass_keeps ns) as Hp.
      destruct (pass mode lockedId ns) as [ns' moved]. simpl in Hp.
      destruct moved; [|exact Hp].
      specialize (IH ns').
      destruct (relax mode lockedId b ns') as [r k]. simpl in *.
      eapply Forall2_keeps_trans; eassumption.
  Qed.

  (** The loop body either leaves the state alone or raises [moved]. *)
Lemma visit_same_or_moved i j st :
    visit mode lockedId i j st = st \/ snd (visit mode lockedId i j st) = true.
  Proof.
    unfold visit.
    destruct (i =? j)%nat; [by left|].
    destruct (fst st !! i) as [a|]; [|by left].
    destruct (fst st !! j) as [b|]; [|by left].
    destruct (is_locked lockedId b); [by left|].
    destruct (negb (overlaps (rect a) (rect b))); [by left|].
    by right.
  Qed.

Lemma visit_moved_stays i j st :
    snd st = true -> snd (visit mode lockedId i j st) = true.
  Proof.
    intros H. destruct (visit_same_or_moved i j st) as [-> | Hm]; assumption.
  Qed.

  (** A pass that reports no movement has changed nothing. *)
Lemma pass_unmoved ns :
    snd (pass mode lockedId ns) = false -> fst (pass mode lockedId ns) = ns.
  Proof.
    assert (H : pass mode lockedId ns = (ns, false)
                \/ snd (pass mode lockedId ns) = true).
    { apply (pass_inv (fun st => st = (ns, false) \/ snd st = true)).
      - intros i j st [-> | Hm].
        + destruct (visit_same_or_moved i j (ns, false)) as [-> | Hm];
            [by left|by right].
        + right. apply visit_moved_stays, Hm.
      - by left. }
    intros Hf. destruct H as [-> | Hm]; [reflexivity|congruence].
  Qed.

Lemma passN_S k ns :
    passN mode lockedId (S k) ns
    = passN mode lockedId k (fst (pass mode lockedId ns)).
  Proof.
    unfold passN. induction k as [|k IH]; [reflexivity|].
    simpl in *. by rewrite IH.
  Qed.

  (** The outer loop: how many passes it performs and when it stops. *)
Lemma relax_spec budget ns :
    let r := fst (relax mode lockedId budget ns) in
    let k := snd (relax mode lockedId budget ns) in
    (k <= budget)%nat
    /\ r = passN mode lockedId k ns
    /\ (forall m, (S m < k)%nat ->
          snd (pass mode lockedId (passN mode lockedId m ns)) = true)
    /\ ((k < budget)%nat ->
          exists m, k = S m
            /\ snd (pass mode lockedId (passN mode lockedId m ns)) = false).
  Proof.
    revert ns. induction budget as [|b IH]; intros ns; simpl.
    - repeat split; [lia|intros m Hm; lia|intros Hk; lia].
    - destruct (pass mode lockedId ns) as [ns' moved] eqn:Hp.
      destruct moved.
      + specialize (IH ns').
        destruct (relax mode lockedId b ns') as [r k]. simpl in *.
        destruct IH as (Hle & Hr & Hbefore & Hstop).
        repeat split.
        * lia.
        * rewrite passN_S, Hp. exact Hr.
        * intros [|m] Hm.
          -- change (passN mode lockedId 0 ns) with ns. by rewrite Hp.
          -- rewrite passN_S, Hp. apply Hbefore. lia.
        * intros Hk. destruct Hstop as (m & -> & Hm); [lia|].
          exists (S m). split; [reflexivity|].
          rewrite passN_S, Hp. exact Hm.
      + simpl. repeat split.
        * lia.
        * rewrite passN_S, Hp. reflexivity.
        * intros m Hm. lia.
        * intros _. exists 0%nat. split; [reflexivity|].
          change (passN mode lockedId 0 ns) with ns. by rewrite Hp.
  Qed.
End Resolver.

Lemma copyNodes_id ns : copyNodes ns = ns.
Proof.
  unfold copyNodes. induction ns as [|n ns IH]; simpl; [reflexivity|].
  rewrite IH. destruct n as [i t [px py] d sel]. reflexivity.
Qed.

Lemma relax_at_least_one mode lockedId budget ns :
  (1 <= snd (relax mode lockedId (S budget) ns))%nat.
Proof.
  simpl. destruct (pass mode lockedId ns) as [ns' moved].
  destruct moved; [|simpl; lia].
  destruct (relax mode lockedId budget ns') as [r k]. simpl. lia.
Qed.

(** C3. [resolveCollisions] is a total function: on every node list,
    mode and optional locked id it returns after [k] full passes over
    the ordered pairs with 1 <= k <= 20; every pass before the last one
    displaced some node, and when fewer than 20 passes were made the
    last one displaced none (and so returned the array it was given). *)
Theorem resolveCollisions_terminates (inputNodes : list GNode)
    (mode : LayoutMode) (lockedId : option string) :
  let k := passesPerformed inputNodes mode lockedId in
  let out := resolveCollisions inputNodes mode lockedId in
  (1 <= k <= 20)%nat
  /\ out = passN mode lockedId k inputNodes
  /\ (forall m, (S m < k)%nat ->
        snd (pass mode lockedId (passN mode lockedId m inputNodes)) = true)
  /\ ((k < 20)%nat ->
        exists m, k = S m
          /\ pass mode lockedId (passN mode lockedId m inputNodes) = (out, false)
          /\ out = passN mode lockedId m inputNodes).
Proof.
  unfold passesPerformed, resolveCollisions. rewrite copyNodes_id.
  destruct (relax_spec mode lockedId 20 inputNodes) as (Hle & Hr & Hbefore & Hstop).
  cbv zeta in *.
  split; [split; [apply relax_at_least_one|exact Hle]|].
  split; [exact Hr|]. split; [exact Hbefore|].
  intros Hk. destruct (Hstop Hk) as (m & Hkm & Hm).
  exists m. split; [exact Hkm|].
  pose proof (pass_unmoved mode lockedId _ Hm) as Hsame.
  rewrite Hr, Hkm.
  change (passN mode lockedId (S m) inputNodes)
    with (fst (pass mode lockedId (passN mode lockedId m inputNodes))).
  split; [|exact Hsame].
  destruct (pass mode lockedId (passN mode lockedId m inputNodes)) as [p mv].
  simpl in Hm. subst mv. reflexivity.
Qed.

(** ** The loop on doubles *)

Lemma doubles_copyNodes_id ns : Doubles.copyNodes ns = ns.
Proof.
  unfold Doubles.copyNodes. induction ns as [|n ns IH]; simpl; [reflexivity|].
  rewrite IH. destruct n as [i t [px py] d sel]. reflexivity.
Qed.

Lemma fold_left_flat_map {A B C} (f : A -> C -> A) (g : B -> list C)
    (l : list B) (a : A) :
  fold_left f (flat_map g l) a
  = fold_left (fun a' b => fold_left f (g b) a') l a.
Proof.
  revert a. induction l as [|b l IH]; intros a; simpl; [reflexivity|].
  by rewrite fold_left_app, IH.
Qed.

Lemma fold_left_mapped {A B C} (f : A -> C -> A) (h : B -> C)
    (l : list B) (a : A) :
  fold_left f (map h l) a = fold_left (fun a' b => f a' (h b)) l a.
Proof.
  revert a. induction l as [|b l IH]; intros a; simpl; [reflexivity|apply IH].
Qed.

Lemma fold_left_same {A B} (f g : A -> B -> A) (l : list B) (a : A) :
  (forall a' b, f a' b = g a' b) -> fold_left f l a = fold_left g l a.
Proof.
  intros H. revert a. induction l as [|b l IH]; intros a; simpl; [reflexivity|].
  by rewrite H, IH.
Qed.

(** A pass is the loop body run over all ordered pairs, row by row. *)
Lemma doubles_pass_trace mode lockedId ns :
  Doubles.pass mode lockedId ns
  = Doubles.passFrom mode lockedId (Doubles.pairsOf (length ns)) (ns, false).
Proof.
  unfold Doubles.pass, Doubles.passFrom, Doubles.pairsOf.
  rewrite fold_left_flat_map.
  apply fold_left_same. intros st i.
  by rewrite fold_left_mapped.
Qed.










Lemma Forall2_keeps_fields lockedId ns ns' :
  Forall2 (keeps lockedId) ns ns' -> map otherFields ns' = map otherFields ns.
Proof.
  induction 1 as [|n n' ns ns' [Hf _] _ IH]; simpl; [reflexivity|].
  by rewrite IH, Hf.
Qed.

(** C10.  [resolveCollisions] returns the nodes of its input in the
    same order with every field other than the position unchanged; and
    when a locked id is given, every node carrying that id is returned
    exactly as it was passed in.  A locked id is given when the guard
    [lockedId && b.id === lockedId] can pass, that is when it is a
    string other than the empty one; every call of the function in the
    program passes the identifier [uid()] has just made, which is never
    empty. *)
Theorem resolveCollisions_frame (inputNodes : list GNode)
    (mode : LayoutMode) (lockedId : option string) :
  length (resolveCollisions inputNodes mode lockedId) = length inputNodes
  /\ map otherFields (resolveCollisions inputNodes mode lockedId)
     = map otherFields inputNodes
  /\ (forall l k n,
        lockedId = Some l -> l <> EmptyString ->
        inputNodes !! k = Some n -> Node.id n = l ->
        resolveCollisions inputNodes mode lockedId !! k = Some n).
Proof.
  pose proof (relax_keeps mode lockedId 20 inputNodes) as H.
  unfold resolveCollisions. rewrite copyNodes_id.
  split; [symmetry; eapply Forall2_length, H|].
  split; [eapply Forall2_keeps_fields, H|].
  intros l k n -> Hl Hn Hid.
  destruct (Forall2_lookup_l _ _ _ _ _ H Hn) as (n' & Hn' & _ & Hkeep).
  rewrite Hn'. f_equal. apply Hkeep.
  unfold is_locked. rewrite Hid, String.eqb_refl.
  destruct (String.eqb_spec l EmptyString); [contradiction|reflexivity].
Qed.

Lemma resolveCollisions_frame_witness :
  map otherFields (resolveCollisions stackedPair mindmap (Some "b"))
    = map otherFields stackedPair
  /\ resolveCollisions stackedPair mindmap (Some "b") !! 1%nat
     = Some (nodeAt "b" 10 10).
Proof.
  destruct (resolveCollisions_frame stackedPair mindmap (Some "b"))
    as (_ & Hf & Hl).
  split; [exact Hf|].
  apply (Hl "b" 1%nat (nodeAt "b" 10 10)).
  - reflexivity.
  - discriminate.
  - reflexivity.
  - reflexivity.
Defined.

(* ===================================================================== *)
(** * Graph edits: deleting a node                                       *)
(* ===================================================================== *)

Lemma filter_all {A} (p : A -> bool) (l : list A) :
  (forall a, In a l -> p a = true) -> List.filter p l = l.
Proof.
  induction l as [|a l IH]; simpl; intros H; [reflexivity|].
  rewrite (H a (or_introl eq_refl)). f_equal. apply IH.
  intros b Hb. apply H. by right.
Qed.

(** With unique ids, removing an id that is present takes out one
    element and leaves the rest in place. *)
Lemma removeNode_exact nodeId (ns : list GNode) :
  List.NoDup (map Node.id ns) ->
  In nodeId (map Node.id ns) ->
  exists before n after,
    ns = before ++ n :: after
    /\ Node.id n = nodeId
    /\ removeNode nodeId ns = before ++ after.
Proof.
  intros Hnd Hin.
  apply in_map_iff in Hin as (n & Hid & Hn).
  apply in_split in Hn as (before & after & ->).
  exists before, n, after. split; [reflexivity|]. split; [exact Hid|].
  rewrite map_app in Hnd. simpl in Hnd.
  apply NoDup_remove in Hnd as [_ Hnot].
  rewrite Hid in Hnot.
  unfold removeNode. rewrite List.filter_app. simpl.
  rewrite Hid, String.eqb_refl. simpl.
  rewrite <- map_app in Hnot.
  assert (Hkeep : forall m, In m (before ++ after) ->
            negb (String.eqb (Node.id m) nodeId) = true).
  { intros m Hm. apply negb_true_iff, String.eqb_neq. intros He.
    apply Hnot. rewrite <- He. apply in_map, Hm. }
  rewrite !filter_all; [reflexivity| |].
  - intros m Hm. apply Hkeep, in_or_app. by right.
  - intros m Hm. apply Hkeep, in_or_app. by left.
Qed.

Lemma removeEdgesOf_touches nodeId es :
  removeEdgesOf nodeId es = List.filter (fun ed => negb (touches nodeId ed)) es.
Proof.
  unfold removeEdgesOf, touches. apply filter_ext.
  intros ed. by rewrite negb_orb.
Qed.

Lemma findNode_present nodeId (ns : list GNode) :
  In nodeId (map Node.id ns) -> exists node, findNode nodeId ns = Some node.
Proof.
  intros Hin. unfold findNode.
  destruct (find _ ns) as [node|] eqn:Hf; [by exists node|].
  apply in_map_iff in Hin as (n & Hid & Hn).
  pose proof (find_none _ _ Hf n Hn) as Hneq. simpl in Hneq.
  rewrite Hid, String.eqb_refl in Hneq. discriminate.
Qed.

Lemma removeEdgesOf_In nodeId es ed :
  In ed (removeEdgesOf nodeId es)
  <-> In ed es /\ Edge.source ed <> nodeId /\ Edge.target ed <> nodeId.
Proof.
  unfold removeEdgesOf. rewrite filter_In, andb_true_iff.
  rewrite !negb_true_iff, !String.eqb_neq. tauto.
Qed.

(** C8. Deleting a node, through the node menu ([handleNodeAction]) or
    through the Delete / Backspace key on the selected node.  With the
    node ids of the document unique and [nodeId] among them, the node
    list loses exactly the one node with that id (the others stay, in
    order), the edge list becomes the edges that do not touch [nodeId]
    (the others stay, in order), and the document list of the store is
    left as it is. *)
Theorem deleteNode_exact (uid : string) (now : Z) (nodeId : string)
    (s : AppState) (c : Canvas) (st' : AppState * Canvas) :
  List.NoDup (map Node.id (cnodes c)) ->
  In nodeId (map Node.id (cnodes c)) ->
  st' = handleNodeAction uid now nodeId ActDelete (s, c)
  \/ (option_map Node.id (find Node.selected (cnodes c)) = Some nodeId
      /\ st' = onKeyDown_delete false (s, c)) ->
  (exists before n after,
      cnodes c = before ++ n :: after
      /\ Node.id n = nodeId
      /\ cnodes (snd st') = before ++ after)
  /\ cedges (snd st')
     = List.filter (fun ed => negb (touches nodeId ed)) (cedges c)
  /\ (forall ed, In ed (cedges (snd st'))
        <-> In ed (cedges c)
            /\ Edge.source ed <> nodeId /\ Edge.target ed <> nodeId)
  /\ files (fst st') = files s.
Proof.
  intros Hnd Hin Hst.
  assert (Heff : st' = (snapshot c s,
                        mkCanvas (removeNode nodeId (cnodes c))
                                 (removeEdgesOf nodeId (cedges c)))).
  { destruct Hst as [-> | [Hsel ->]].
    - simpl. destruct (findNode_present nodeId _ Hin) as [node ->]. reflexivity.
    - unfold onKeyDown_delete.
      destruct (find Node.selected (cnodes c)) as [sel|]; [|discriminate].
      simpl in Hsel. injection Hsel as ->. reflexivity. }
  subst st'. simpl.
  split; [apply removeNode_exact; assumption|].
  split; [apply removeEdgesOf_touches|].
  split; [intros ed; apply removeEdgesOf_In|reflexivity].
Qed.

Lemma deleteNode_exact_witness :
  cnodes (snd (handleNodeAction "u" 1 "c2" ActDelete (oneFileState, fanCanvas)))
    = [rootNode; nodeAt "c1" 0 (-220); nodeAt "c3" 190 110]
  /\ cedges (snd (handleNodeAction "u" 1 "c2" ActDelete (oneFileState, fanCanvas)))
    = [edgeBetween "root" "c1"; edgeBetween "root" "c3"]
  /\ files (fst (handleNodeAction "u" 1 "c2" ActDelete (oneFileState, fanCanvas)))
    = files oneFileState.
Proof.
  destruct (deleteNode_exact "u" 1 "c2" oneFileState fanCanvas
              (handleNodeAction "u" 1 "c2" ActDelete (oneFileState, fanCanvas)))
    as (_ & He & _ & Hf).
  - repeat constructor; simpl; intuition discriminate.
  - simpl. tauto.
  - left. reflexivity.
  - split; [reflexivity|]. split; [exact He|exact Hf].
Defined.

(* ===================================================================== *)
(** * JSON import                                                        *)
(* ===================================================================== *)

(** C9, as the code has it.  A payload that parses to anything but
    [null] is imported, an absent [nodes] or [edges] key read as the
    empty list, and written to the active document.  A payload that does
    not parse, or that parses to [null], is rejected with the error
    "Invalid JSON"; [handleImport] then raises its alert and returns the
    state it was given. *)
Theorem importJSON_outcomes (payload : ParseOutcome) (now : Z) (s : AppState) :
  match payload with
  | Some (JValue ns es) =>
      importJSON payload = Resolved (mkSnapshot (default [] ns) (default [] es))
      /\ handleImport now (Some payload) s
         = (setEdges now (default [] es) (setNodes now (default [] ns) s), None)
  | Some JNull | None =>
      importJSON payload = Rejected "Invalid JSON"
      /\ handleImport now (Some payload) s
         = (s, Some "Failed to import: invalid JSON file")
  end.
Proof. destruct payload as [[|ns es]|]; split; reflexivity. Qed.

(** The payload [null] parses as JSON and is nevertheless rejected:
    reading [nodes] from [null] throws inside the [try]. *)
Lemma importJSON_null_rejected :
  importJSON (Some JNull) = Rejected "Invalid JSON"
  /\ (forall r, importJSON (Some JNull) <> Resolved r).
Proof. split; [reflexivity|intros r; discriminate]. Qed.

(* ===================================================================== *)
(** * More on the history                                                *)
(* ===================================================================== *)

Lemma slice_init_last {A} (l : list A) (a : A) :
  last l = Some a -> slice_init l ++ [a] = l.
Proof.
  intros H. destruct (decide (l = [])) as [->|Hne]; [discriminate|].
  destruct (exists_last Hne) as (l' & b & ->).
  rewrite last_snoc in H. injection H as ->.
  by rewrite slice_init_push.
Qed.

(** X1. [undo] directly followed by [redo] is a round trip: when there
    is something to undo and an active document, the two stacks and the
    (nodes, edges) of the active document are afterwards what they were
    before. *)
Theorem undo_then_redo (now1 now2 : Z) (s : AppState) (cur : Snapshot) :
  undoStack s <> [] ->
  activePair s = Some cur ->
  activePair (redo now2 (undo now1 s)) = Some cur
  /\ undoStack (redo now2 (undo now1 s)) = undoStack s
  /\ redoStack (redo now2 (undo now1 s)) = redoStack s.
Proof.
  intros Hne Hcur.
  destruct (last (undoStack s)) as [prev|] eqn:Hl.
  2:{ apply last_None in Hl. contradiction. }
  destruct (undo_spec now1 s prev cur Hl Hcur) as (Hp & Hu & Hr).
  assert (Hl2 : last (redoStack (undo now1 s)) = Some cur).
  { rewrite Hr. apply last_push. }
  destruct (redo_spec now2 _ cur prev Hl2 Hp) as (Hp' & Hu' & Hr').
  split; [exact Hp'|]. split.
  - rewrite Hu', Hu. apply slice_init_last, Hl.
  - rewrite Hr', Hr. apply slice_init_push.
Qed.

Lemma undo_then_redo_witness :
  activePair (redo 3 (undo 2 (setNodes 1 [] (pushUndo rootPair oneFileState))))
    = Some emptyPair
  /\ undoStack (redo 3 (undo 2 (setNodes 1 [] (pushUndo rootPair oneFileState))))
    = [rootPair]
  /\ redoStack (redo 3 (undo 2 (setNodes 1 [] (pushUndo rootPair oneFileState))))
    = [].
Proof.
  apply (undo_then_redo 2 3 (setNodes 1 [] (pushUndo rootPair oneFileState))
           emptyPair).
  - discriminate.
  - reflexivity.
Defined.

(** X2. [redo] directly followed by [undo] is a round trip as well. *)
Theorem redo_then_undo (now1 now2 : Z) (s : AppState) (cur : Snapshot) :
  redoStack s <> [] ->
  activePair s = Some cur ->
  activePair (undo now2 (redo now1 s)) = Some cur
  /\ undoStack (undo now2 (redo now1 s)) = undoStack s
  /\ redoStack (undo now2 (redo now1 s)) = redoStack s.
Proof.
  intros Hne Hcur.
  destruct (last (redoStack s)) as [next|] eqn:Hl.
  2:{ apply last_None in Hl. contradiction. }
  destruct (redo_spec now1 s next cur Hl Hcur) as (Hp & Hu & Hr).
  assert (Hl2 : last (undoStack (redo now1 s)) = Some cur).
  { rewrite Hu. apply last_push. }
  destruct (undo_spec now2 _ cur next Hl2 Hp) as (Hp' & Hu' & Hr').
  split; [exact Hp'|]. split.
  - rewrite Hu', Hu. apply slice_init_push.
  - rewrite Hr', Hr. apply slice_init_last, Hl.
Qed.

Lemma redo_then_undo_witness :
  activePair (undo 4 (redo 3 (undo 2 (pushUndo emptyPair oneFileState))))
    = Some emptyPair
  /\ undoStack (undo 4 (redo 3 (undo 2 (pushUndo emptyPair oneFileState))))
    = []
  /\ redoStack (undo 4 (redo 3 (undo 2 (pushUndo emptyPair oneFileState))))
    = [rootPair].
Proof.
  apply (redo_then_undo 3 4 (undo 2 (pushUndo emptyPair oneFileState)) emptyPair).
  - discriminate.
  - reflexivity.
Defined.

Lemma undo_keeps_active now s :
  is_Some (activeFile s) -> is_Some (activeFile (undo now s)).
Proof.
  intros [f Hf]. unfold undo. rewrite Hf.
  destruct (last (undoStack s)); [|by exists f].
  rewrite activeFile_setEdges, activeFile_setNodes.
  change (activeFile (mkState (files s) (activeFileId s) _ _ _ _))
    with (activeFile s).
  rewrite Hf. by eexists.
Qed.

Lemma last_take_lookup {A} (l : list A) (n : nat) :
  (1 <= n <= length l)%nat -> last (take n l) = l !! (n - 1)%nat.
Proof.
  intros Hn. rewrite last_lookup, length_take.
  replace (Nat.pred (n `min` length l)) with (n - 1)%nat by lia.
  apply lookup_take_lt. lia.
Qed.

Lemma slice_init_take {A} (l : list A) (n : nat) :
  (n <= length l)%nat -> slice_init (take n l) = take (n - 1) l.
Proof.
  intros Hn. unfold slice_init. rewrite length_take, take_take.
  f_equal. lia.
Qed.

(** X3. Multi-level undo.  With an active document, [k] undos in a row
    (1 <= k <= size of the undo stack) leave the active document with
    the snapshot that lies [k] deep in the stack, remove the top [k]
    entries from the undo stack and add [k] entries to the redo stack. *)
Theorem undo_many (k : nat) (now : Z) (s : AppState) :
  is_Some (activeFile s) ->
  (1 <= k <= length (undoStack s))%nat ->
  activePair (repeatOp k (undo now) s)
    = undoStack s !! (length (undoStack s) - k)%nat
  /\ undoStack (repeatOp k (undo now) s)
    = take (length (undoStack s) - k) (undoStack s)
  /\ length (redoStack (repeatOp k (undo now) s))
    = (length (redoStack s) + k)%nat.
Proof.
  intros Hact [Hk1 Hk].
  set (n := length (undoStack s)) in *.
  assert (Hgen : forall j, (j <= n)%nat ->
            is_Some (activeFile (repeatOp j (undo now) s))
            /\ undoStack (repeatOp j (undo now) s) = take (n - j) (undoStack s)
            /\ length (redoStack (repeatOp j (undo now) s))
               = (length (redoStack s) + j)%nat
            /\ ((1 <= j)%nat ->
                activePair (repeatOp j (undo now) s)
                = undoStack s !! (n - j)%nat)).
  { induction j as [|j IH]; intros Hj.
    - unfold repeatOp. simpl. split; [exact Hact|].
      split; [rewrite Nat.sub_0_r; symmetry; apply take_ge; lia|].
      split; [lia|lia].
    - destruct IH as (Ha & Hu & Hr & _); [lia|].
      change (repeatOp (S j) (undo now) s)
        with (undo now (repeatOp j (undo now) s)).
      set (t := repeatOp j (undo now) s) in *.
      assert (Hl : last (undoStack t) = undoStack s !! (n - S j)%nat).
      { rewrite Hu, last_take_lookup by (fold n; lia). f_equal. lia. }
      destruct (undoStack s !! (n - S j)%nat) as [prev|] eqn:Hprev.
      2:{ apply lookup_ge_None in Hprev. fold n in Hprev. lia. }
      destruct Ha as [f Hf].
      assert (Hc : activePair t
                   = Some (mkSnapshot (MindMapFile.nodes f) (MindMapFile.edges f))).
      { unfold activePair. by rewrite Hf. }
      destruct (undo_spec now t prev _ Hl Hc) as (Hp & Hu' & Hr').
      split; [apply undo_keeps_active; by exists f|].
      split; [rewrite Hu', Hu, slice_init_take by (fold n; lia); f_equal; lia|].
      split; [rewrite Hr', length_app, Hr; simpl; lia|].
      intros _. exact Hp. }
  destruct (Hgen k Hk) as (_ & Hu & Hr & Hp).
  split; [apply Hp, Hk1|]. split; assumption.
Qed.

Lemma undo_many_witness :
  activePair (repeatOp 2 (undo 9)
                (pushUndo emptyPair (pushUndo rootPair oneFileState)))
    = Some rootPair.
Proof.
  destruct (undo_many 2 9 (pushUndo emptyPair (pushUndo rootPair oneFileState)))
    as (Hp & _ & _).
  - by eexists.
  - simpl. lia.
  - exact Hp.
Defined.

(** X4. What [pushUndo] evicts.  In a reachable state a push keeps the
    whole undo stack as long as it has at most 50 entries, and drops
    exactly its oldest entry when it has 51; the new snapshot goes on
    top. *)
Theorem pushUndo_eviction (snap : Snapshot) (s : AppState) :
  Reachable s ->
  undoStack (pushUndo snap s)
  = (if (length (undoStack s) <=? 50)%nat then undoStack s
     else tail (undoStack s)) ++ [snap].
Proof.
  intros Hs. pose proof (history_bound s Hs) as Hb. unfold MAX_UNDO in Hb.
  unfold pushUndo. cbn [undoStack]. f_equal. unfold slice_last, MAX_UNDO.
  destruct (Nat.leb_spec (length (undoStack s)) 50) as [Hle|Hgt].
  - replace (length (undoStack s) - 50)%nat with 0%nat by lia. reflexivity.
  - replace (length (undoStack s) - 50)%nat with 1%nat by lia.
    destruct (undoStack s); reflexivity.
Qed.

Lemma pushUndo_eviction_witness :
  undoStack (pushUndo emptyPair (pushUndo rootPair oneFileState))
  = [rootPair; emptyPair].
Proof.
  rewrite (pushUndo_eviction emptyPair (pushUndo rootPair oneFileState)).
  - reflexivity.
  - eapply reach_step; [apply reachable_oneFileState|apply step_pushUndo].
Defined.

(* ===================================================================== *)
(** * Navigation                                                         *)
(* ===================================================================== *)

(** X5. Going into a document and back.  When the breadcrumb ends with
    the active document, [pushBreadcrumb] followed by [popBreadcrumb]
    returns to that document with the breadcrumb as before; the
    documents are untouched and both history stacks are empty. *)
Theorem push_pop_breadcrumb (id a : string) (s : AppState) :
  last (breadcrumb s) = Some a ->
  activeFileId s = Some a ->
  activeFileId (popBreadcrumb (pushBreadcrumb id s)) = Some a
  /\ breadcrumb (popBreadcrumb (pushBreadcrumb id s)) = breadcrumb s
  /\ files (popBreadcrumb (pushBreadcrumb id s)) = files s
  /\ undoStack (popBreadcrumb (pushBreadcrumb id s)) = []
  /\ redoStack (popBreadcrumb (pushBreadcrumb id s)) = [].
Proof.
  intros Hl _. unfold popBreadcrumb, pushBreadcrumb.
  cbn [breadcrumb activeFileId files undoStack redoStack].
  rewrite slice_init_push, Hl. repeat split; reflexivity.
Qed.

Lemma push_pop_breadcrumb_witness :
  activeFileId (popBreadcrumb (pushBreadcrumb "b" (setActiveFile "a" nestedState)))
  = Some "a".
Proof.
  destruct (push_pop_breadcrumb "b" "a" (setActiveFile "a" nestedState))
    as (H & _); [reflexivity|reflexivity|exact H].
Defined.

(** X6. Popping the last breadcrumb entry.  With at most one entry in
    the breadcrumb, [popBreadcrumb] empties it and activates the first
    document of the store (none if there is no document), whichever
    document was active. *)
Theorem popBreadcrumb_top_level (s : AppState) :
  (length (breadcrumb s) <= 1)%nat ->
  breadcrumb (popBreadcrumb s) = []
  /\ activeFileId (popBreadcrumb s) = option_map MindMapFile.id (head (files s)).
Proof.
  intros H. unfold popBreadcrumb. cbn.
  destruct (breadcrumb s) as [|b [|b' bc]]; [split; reflexivity| |simpl in H; lia].
  split; reflexivity.
Qed.

Lemma popBreadcrumb_top_level_witness :
  activeFileId (popBreadcrumb (setActiveFile "b" nestedState)) = Some "c".
Proof.
  destruct (popBreadcrumb_top_level (setActiveFile "b" nestedState)) as (_ & H).
  - simpl. lia.
  - exact H.
Defined.

Lemma breadcrumbClick_stuck fuel i stale live :
  (i + 1 < length (breadcrumb stale))%nat ->
  breadcrumbClick fuel i stale live = None.
Proof.
  intros H. revert live. induction fuel as [|fuel IH]; intros live; simpl;
    destruct (Nat.ltb_spec (i + 1) (length (breadcrumb stale))); try lia.
  - reflexivity.
  - apply IH.
Qed.

(** X7. The breadcrumb bar.  A click on the last entry changes nothing.
    A click on any earlier entry never comes back: the loop tests the
    breadcrumb of the state object read before the loop, which
    [popBreadcrumb] does not change, so the loop has not ended after any
    number of iterations. *)
Theorem breadcrumbClick_behaviour (i : nat) (s : AppState) :
  ((length (breadcrumb s) <= i + 1)%nat ->
     forall fuel, breadcrumbClick fuel i s s = Some s)
  /\ ((i + 1 < length (breadcrumb s))%nat ->
     forall fuel, breadcrumbClick fuel i s s = None).
Proof.
  split; intros H fuel.
  - destruct fuel; simpl;
      destruct (Nat.ltb_spec (i + 1) (length (breadcrumb s))); try lia;
      reflexivity.
  - apply breadcrumbClick_stuck, H.
Qed.

(* ===================================================================== *)
(** * Documents                                                          *)
(* ===================================================================== *)

Lemma filter_filter_same {A} (p : A -> bool) (l : list A) :
  List.filter p (List.filter p l) = List.filter p l.
Proof.
  apply filter_all. intros a Ha. apply filter_In in Ha. tauto.
Qed.

(** X8. [deleteFile] is idempotent: deleting the same id a second time
    changes nothing. *)
Theorem deleteFile_idempotent (id : string) (s : AppState) :
  deleteFile id (deleteFile id s) = deleteFile id s.
Proof.
  unfold deleteFile. cbn [files activeFileId breadcrumb undoStack redoStack layoutMode].
  rewrite filter_filter_same. f_equal.
  destruct (opt_is (activeFileId s) id) eqn:Ha.
  - set (remaining := List.filter _ (files s)).
    destruct remaining as [|f r] eqn:Hr; [reflexivity|]. simpl.
    assert (Hin : In f remaining) by (rewrite Hr; by left).
    apply filter_In in Hin as [_ Hf]. apply andb_true_iff in Hf as [Hf _].
    apply negb_true_iff in Hf. by rewrite Hf.
  - by rewrite Ha.
Qed.

(** X9. Grandchildren are orphaned.  Deleting a document removes its
    children but keeps the children of those children: with unique
    document ids, a grandchild [g] of the deleted document stays in the
    store while no document with the id of its parent is left. *)
Theorem deleteFile_orphans_grandchildren (id : string) (s : AppState)
    (c g : MindMapFile.t) :
  List.NoDup (map MindMapFile.id (files s)) ->
  In c (files s) -> In g (files s) ->
  MindMapFile.parentFileId c = Some id ->
  MindMapFile.parentFileId g = Some (MindMapFile.id c) ->
  MindMapFile.id g <> id ->
  MindMapFile.id c <> id ->
  In g (files (deleteFile id s))
  /\ (forall f, In f (files (deleteFile id s)) ->
        MindMapFile.id f <> MindMapFile.id c).
Proof.
  intros Hnd Hc Hg Hpc Hpg Hgid Hcid. split.
  - apply deleteFile_files. split; [exact Hg|]. split; [exact Hgid|].
    rewrite Hpg. intros [= He]. contradiction.
  - intros f Hf He. apply deleteFile_files in Hf as (Hin & _ & Hpf).
    assert (f = c); [|subst f; contradiction].
    clear - Hnd Hin Hc He.
    induction (files s) as [|h t IH]; [contradiction|].
    simpl in Hnd. inversion Hnd as [|? ? Hnot Hnd']; subst.
    destruct Hin as [->|Hin], Hc as [->|Hc]; try reflexivity.
    + exfalso. apply Hnot. rewrite He. apply in_map, Hc.
    + exfalso. apply Hnot. rewrite <- He. apply in_map, Hin.
    + apply IH; assumption.
Qed.

Lemma deleteFile_orphans_grandchildren_witness :
  map MindMapFile.id
    (files (deleteFile "c"
       (fst (createFile "g" 3 None (Some "b") (Some "root")
          (fst (createFile "b" 2 None (Some "c") (Some "root")
             (fst (createFile "c" 0 None None None initialState))))))))
  = ["g"].
Proof.
  set (s := fst (createFile "g" 3 None (Some "b") (Some "root")
          (fst (createFile "b" 2 None (Some "c") (Some "root")
             (fst (createFile "c" 0 None None None initialState)))))).
  destruct (deleteFile_orphans_grandchildren "c" s
              (defaultFile "b" 2 "Untitled Map" (Some "c") (Some "root"))
              (defaultFile "g" 3 "Untitled Map" (Some "b") (Some "root")))
    as (_ & _).
  - repeat constructor; simpl; intuition discriminate.
  - simpl. tauto.
  - simpl. tauto.
  - reflexivity.
  - reflexivity.
  - discriminate.
  - discriminate.
  - reflexivity.
Defined.

Lemma treeOf_update (p : MindMapFile.t -> bool) (g : MindMapFile.t -> MindMapFile.t)
    (s : AppState) :
  (forall f, (MindMapFile.id (g f), MindMapFile.parentFileId (g f),
              MindMapFile.parentNodeId (g f), MindMapFile.pinned (g f))
             = (MindMapFile.id f, MindMapFile.parentFileId f,
                MindMapFile.parentNodeId f, MindMapFile.pinned f)) ->
  treeOf (with_files (map (fun f => if p f then g f else f) (files s)) s)
  = treeOf s.
Proof.
  intros Hg. unfold treeOf. cbn [files with_files]. rewrite map_map.
  apply map_ext. intros f. destruct (p f); [apply Hg|reflexivity].
Qed.

Lemma treeOf_setNodes now ns s : treeOf (setNodes now ns s) = treeOf s.
Proof. apply (treeOf_update (is_active s)). reflexivity. Qed.

Lemma treeOf_setEdges now es s : treeOf (setEdges now es s) = treeOf s.
Proof. apply (treeOf_update (is_active s)). reflexivity. Qed.

Lemma treeOf_undo now s : treeOf (undo now s) = treeOf s.
Proof.
  unfold undo. destruct (last (undoStack s)); [|reflexivity].
  destruct (activeFile s); [|reflexivity].
  by rewrite treeOf_setEdges, treeOf_setNodes.
Qed.

Lemma treeOf_redo now s : treeOf (redo now s) = treeOf s.
Proof.
  unfold redo. destruct (last (redoStack s)); [|reflexivity].
  destruct (activeFile s); [|reflexivity].
  by rewrite treeOf_setEdges, treeOf_setNodes.
Qed.

(** X10. Only [createFile], [deleteFile], [togglePin] and
    [reorderFiles] touch the document tree.  Writing nodes or edges,
    renaming, the history operations and the navigation leave the id,
    the parent document, the owning node and the pin of every document,
    and the order of the documents, as they are. *)
Theorem tree_frame (now : Z) (s : AppState) :
  (forall ns, treeOf (setNodes now ns s) = treeOf s)
  /\ (forall es, treeOf (setEdges now es s) = treeOf s)
  /\ (forall f, treeOf (updateNodes now f s) = treeOf s)
  /\ (forall f, treeOf (updateEdges now f s) = treeOf s)
  /\ (forall id name, treeOf (renameFile now id name s) = treeOf s)
  /\ (forall snap, treeOf (pushUndo snap s) = treeOf s)
  /\ treeOf (undo now s) = treeOf s
  /\ treeOf (redo now s) = treeOf s
  /\ (forall id, treeOf (setActiveFile id s) = treeOf s)
  /\ (forall id, treeOf (pushBreadcrumb id s) = treeOf s)
  /\ treeOf (popBreadcrumb s) = treeOf s.
Proof.
  repeat split; try reflexivity; intros.
  - apply treeOf_setNodes.
  - apply treeOf_setEdges.
  - unfold updateNodes. destruct (activeFile s); [apply treeOf_setNodes|reflexivity].
  - unfold updateEdges. destruct (activeFile s); [apply treeOf_setEdges|reflexivity].
  - apply (treeOf_update (has_id id)). reflexivity.
  - apply treeOf_undo.
  - apply treeOf_redo.
Qed.

Lemma portalDocs_app nodeId s f :
  List.filter (fun f => opt_is (MindMapFile.parentNodeId f) nodeId) (files s ++ [f])
  = portalDocs nodeId s
    ++ (if opt_is (MindMapFile.parentNodeId f) nodeId then [f] else []).
Proof. unfold portalDocs. rewrite List.filter_app. reflexivity. Qed.

Lemma createFile_portal_unique_iff (uid : string) (now : Z) (name : option string)
    (pf pn : option string) (s : AppState) :
  PortalUnique s ->
  (PortalUnique (fst (createFile uid now name pf pn s))
   <-> (forall n, pn = Some n -> portalDocs n s = [])).
Proof.
  intros Hs. unfold PortalUnique, createFile. cbn [fst].
  unfold portalDocs at 1. cbn [files].
  split.
  - intros H n ->. specialize (H n). rewrite portalDocs_app in H.
    cbn in H. rewrite String.eqb_refl, length_app in H. simpl in H.
    destruct (portalDocs n s); [reflexivity|simpl in H; lia].
  - intros H n. rewrite portalDocs_app. cbn [defaultFile MindMapFile.parentNodeId].
    destruct (opt_is pn n) eqn:Hpn.
    + apply opt_is_true in Hpn. rewrite (H n Hpn). simpl. lia.
    + rewrite app_nil_r. apply Hs.
Qed.

Lemma deleteFile_keeps_portal_unique (id : string) (s : AppState) :
  PortalUnique s -> PortalUnique (deleteFile id s).
Proof.
  intros Hs n. specialize (Hs n). unfold portalDocs in *.
  unfold deleteFile. cbn [files].
  set (keep := fun f => negb (String.eqb (MindMapFile.id f) id)
                        && negb (opt_is (MindMapFile.parentFileId f) id)).
  set (own := fun f => opt_is (MindMapFile.parentNodeId f) n) in *.
  assert (Hlen : forall l, (length (List.filter own (List.filter keep l))
                           <= length (List.filter own l))%nat).
  { induction l as [|f l IH]; simpl; [lia|].
    destruct (keep f); simpl; destruct (own f); simpl; lia. }
  specialize (Hlen (files s)). lia.
Qed.

(** X11. Portal uniqueness under [createFile] and [deleteFile].  From
    a state in which no node id owns two documents, [deleteFile] always
    keeps that property, and [createFile] keeps it exactly when the new
    document has no owning node or its owning node owns no document
    yet. *)
Theorem portal_unique_create_delete (s : AppState) :
  PortalUnique s ->
  (forall id, PortalUnique (deleteFile id s))
  /\ (forall uid now name pf pn,
        PortalUnique (fst (createFile uid now name pf pn s))
        <-> (forall n, pn = Some n -> portalDocs n s = [])).
Proof.
  intros Hs. split.
  - intros id. by apply deleteFile_keeps_portal_unique.
  - intros uid now name pf pn. by apply createFile_portal_unique_iff.
Qed.

Lemma portal_unique_create_delete_witness :
  PortalUnique (fst (createFile "p1" 1 None (Some "a") (Some "root") oneFileState))
  /\ PortalUnique (deleteFile "a" oneFileState).
Proof.
  destruct (portal_unique_create_delete oneFileState) as (Hd & Hc).
  - intros n. vm_compute. lia.
  - split; [|apply Hd].
    apply (Hc "p1" 1 None (Some "a") (Some "root")). intros n _. reflexivity.
Defined.

Lemma find_app_fresh {A} (p : A -> bool) (l : list A) (a : A) :
  (forall b, In b l -> p b = false) -> p a = true ->
  find p (l ++ [a]) = Some a.
Proof.
  intros Hl Ha. induction l as [|b l IH]; simpl.
  - by rewrite Ha.
  - rewrite (Hl b (or_introl eq_refl)). apply IH.
    intros c Hc. apply Hl. by right.
Qed.

Lemma fresh_createFile_active (uid : string) (now : Z) (name : option string)
    (pf pn : option string) (s : AppState) :
  ~ In uid (map MindMapFile.id (files s)) ->
  activeFile (fst (createFile uid now name pf pn s))
  = Some (defaultFile uid now (default "Untitled Map" name) pf pn).
Proof.
  intros Hfresh. unfold createFile, activeFile. cbn [fst files].
  apply find_app_fresh.
  - intros b Hb. unfold is_active. cbn.
    apply String.eqb_neq. intros He. apply Hfresh.
    rewrite He. apply in_map, Hb.
  - unfold is_active. cbn. apply String.eqb_refl.
Qed.

(** X12. [createFile] with a fresh id.  When [uid()] returns an id no
    document has, the new document becomes the active document, it
    holds the single node "root" and no edge, the ids of the documents
    stay pairwise different, and the breadcrumb and both history stacks
    are carried over unchanged. *)
Theorem createFile_fresh (uid : string) (now : Z) (name : option string)
    (pf pn : option string) (s : AppState) :
  ~ In uid (map MindMapFile.id (files s)) ->
  let s' := fst (createFile uid now name pf pn s) in
  activeFile s' = Some (defaultFile uid now (default "Untitled Map" name) pf pn)
  /\ activePair s' = Some rootPair
  /\ (List.NoDup (map MindMapFile.id (files s)) ->
      List.NoDup (map MindMapFile.id (files s')))
  /\ breadcrumb s' = breadcrumb s
  /\ undoStack s' = undoStack s
  /\ redoStack s' = redoStack s.
Proof.
  intros Hfresh s'.
  pose proof (fresh_createFile_active uid now name pf pn s Hfresh) as Ha.
  fold s' in Ha.
  split; [exact Ha|]. split; [unfold activePair; by rewrite Ha|].
  split; [|repeat split; reflexivity].
  intros Hnd. unfold s', createFile. cbn [fst files].
  rewrite map_app. simpl. apply List.NoDup_app.
  - exact Hnd.
  - repeat constructor. intros [].
  - intros a Hin [<-|[]]. contradiction.
Qed.

Lemma createFile_fresh_witness :
  activePair (fst (createFile "b" 1 None None None oneFileState)) = Some rootPair.
Proof.
  destruct (createFile_fresh "b" 1 None None None oneFileState) as (_ & H & _).
  - simpl. intros [H|[]]. discriminate.
  - exact H.
Defined.

(* ===================================================================== *)
(** * Graph edits                                                        *)
(* ===================================================================== *)

Lemma findNode_absent nodeId (ns : list GNode) :
  ~ In nodeId (map Node.id ns) -> findNode nodeId ns = None.
Proof.
  intros H. unfold findNode.
  destruct (find _ ns) as [n|] eqn:Hf; [|reflexivity].
  apply find_some in Hf as [Hin He]. apply String.eqb_eq in He.
  exfalso. apply H. rewrite <- He. apply in_map, Hin.
Qed.


(** X13. Unknown node id.  An action on an id that no node of the
    canvas has changes nothing: no snapshot is pushed, no document is
    created, the canvas stays as it is. *)
Theorem handleNodeAction_unknown_node (uid : string) (now : Z)
    (nodeId : string) (action : Action) (s : AppState) (c : Canvas) :
  ~ In nodeId (map Node.id (cnodes c)) ->
  handleNodeAction uid now nodeId action (s, c) = (s, c)
  /\ addParent uid nodeId (s, c) = (s, c).
Proof.
  intros H. unfold handleNodeAction, addParent.
  rewrite (findNode_absent _ _ H). split; reflexivity.
Qed.

Lemma handleNodeAction_unknown_node_witness :
  handleNodeAction "u" 1 "zz" ActDelete (oneFileState, fanCanvas)
  = (oneFileState, fanCanvas).
Proof.
  destruct (handleNodeAction_unknown_node "u" 1 "zz" ActDelete
              oneFileState fanCanvas) as (H & _).
  - simpl. intuition discriminate.
  - exact H.
Defined.

Lemma mapNodeData_ids nodeId d ns :
  map Node.id (mapNodeData nodeId d ns) = map Node.id ns.
Proof.
  unfold mapNodeData. rewrite map_map. apply map_ext.
  intros n. destruct (String.eqb (Node.id n) nodeId); reflexivity.
Qed.

Lemma removeNode_ids nodeId ns i :
  In i (map Node.id (removeNode nodeId ns))
  <-> In i (map Node.id ns) /\ i <> nodeId.
Proof.
  unfold removeNode. rewrite !in_map_iff. split.
  - intros (n & <- & Hn). apply filter_In in Hn as [Hin Hne].
    apply negb_true_iff, String.eqb_neq in Hne. split; [|exact Hne].
    exists n. tauto.
  - intros [(n & <- & Hn) Hne]. exists n. split; [reflexivity|].
    apply filter_In. split; [exact Hn|]. by apply negb_true_iff, String.eqb_neq.
Qed.

Lemma removeNode_NoDup nodeId (ns : list GNode) :
  List.NoDup (map Node.id ns) -> List.NoDup (map Node.id (removeNode nodeId ns)).
Proof.
  unfold removeNode. induction ns as [|n ns IH]; simpl; intros H; [constructor|].
  inversion H as [|? ? Hnot Hnd]; subst.
  destruct (negb (String.eqb (Node.id n) nodeId)); simpl; [|apply IH, Hnd].
  constructor; [|apply IH, Hnd].
  intros Hin. apply Hnot.
  apply (removeNode_ids nodeId ns (Node.id n)) in Hin. tauto.
Qed.

(** X14. The node menu keeps a well-formed graph.  If both ends of
    every edge are nodes, the same holds after any action of
    [handleNodeAction] (deleting a node takes its edges along); and if
    the node ids are pairwise different and [uid()] returns a new one,
    they stay pairwise different. *)
Theorem handleNodeAction_well_formed (uid : string) (now : Z)
    (nodeId : string) (action : Action) (s : AppState) (c : Canvas) :
  EdgesClosed c ->
  EdgesClosed (snd (handleNodeAction uid now nodeId action (s, c)))
  /\ (List.NoDup (map Node.id (cnodes c)) ->
      ~ In uid (map Node.id (cnodes c)) ->
      List.NoDup (map Node.id
                    (cnodes (snd (handleNodeAction uid now nodeId action (s, c)))))).
Proof.
  intros Hc. unfold handleNodeAction.
  destruct (findNode nodeId (cnodes c)) as [node|]; [|split; [exact Hc|tauto]].
  unfold EdgesClosed. destruct action.
  - cbn [snd cnodes cedges]. split.
    + intros ed Hed. apply removeEdgesOf_In in Hed as (Hin & Hs & Ht).
      destruct (Hc ed Hin) as [H1 H2].
      split; apply removeNode_ids; tauto.
    + intros Hnd _. apply removeNode_NoDup, Hnd.
  - unfold createFile.
    destruct (negb (isPortal (Node.data node))); cbn [snd cnodes cedges];
      (split; [intros ed Hed; rewrite mapNodeData_ids; apply Hc, Hed
              |intros Hnd _; rewrite mapNodeData_ids; exact Hnd]).
  - cbn [snd cnodes cedges]. split.
    + intros ed Hed. destruct (Hc ed Hed) as [H1 H2].
      rewrite map_app. split; apply in_or_app; by left.
    + intros Hnd Hfresh. rewrite map_app. simpl. apply List.NoDup_app.
      * exact Hnd.
      * repeat constructor. intros [].
      * intros a Ha [<-|[]]. contradiction.
Qed.

Lemma handleNodeAction_well_formed_witness :
  EdgesClosed (snd (handleNodeAction "u" 1 "c2" ActDelete (oneFileState, fanCanvas))).
Proof.
  destruct (handleNodeAction_well_formed "u" 1 "c2" ActDelete oneFileState fanCanvas)
    as (H & _); [|exact H].
  intros ed Hed. simpl in Hed.
  destruct Hed as [<-|[<-|[<-|[]]]]; simpl; tauto.
Defined.

(** X15. Undo after a node-menu edit.  For deleting, duplicating and
    removing a portal: when the store has an active document, [undo]
    right after the action writes the (nodes, edges) the canvas showed
    before the action into the active document. *)
Theorem undo_after_node_action (uid : string) (now now' : Z)
    (nodeId : string) (action : Action) (s : AppState) (c : Canvas)
    (node : GNode) :
  findNode nodeId (cnodes c) = Some node ->
  is_Some (activeFile s) ->
  action <> ActTogglePortal \/ isPortal (Node.data node) = true ->
  activePair (undo now' (fst (handleNodeAction uid now nodeId action (s, c))))
  = Some (canvasPair c).
Proof.
  intros Hn [f Hf] Hact.
  assert (Hs : fst (handleNodeAction uid now nodeId action (s, c)) = snapshot c s).
  { unfold handleNodeAction. rewrite Hn.
    destruct action; try reflexivity.
    destruct Hact as [Hne|Hp]; [contradiction|]. by rewrite Hp. }
  rewrite Hs.
  refine (proj1 (undo_spec now' (snapshot c s) (canvasPair c)
                   (mkSnapshot (MindMapFile.nodes f) (MindMapFile.edges f)) _ _)).
  - unfold snapshot, pushUndo. cbn [undoStack]. apply last_push.
  - unfold activePair, snapshot, pushUndo.
    change (activeFile (mkState (files s) (activeFileId s) _ _ _ _))
      with (activeFile s).
    by rewrite Hf.
Qed.

Lemma undo_after_node_action_witness :
  activePair (undo 2 (fst (handleNodeAction "u" 1 "c2" ActDelete
                             (oneFileState, fanCanvas))))
  = Some (canvasPair fanCanvas).
Proof.
  apply (undo_after_node_action "u" 1 2 "c2" ActDelete oneFileState fanCanvas
           (nodeAt "c2" 190 (-110))).
  - reflexivity.
  - by eexists.
  - left. discriminate.
Defined.

(** X16. Undo after making a portal.  Making a node a portal creates
    the sub-document and activates it, so [undo] right after it (with a
    new id from [uid()]) writes the snapshot of the parent canvas into
    the new sub-document; no other document is written. *)
Theorem undo_after_make_portal (uid : string) (now now' : Z)
    (nodeId : string) (s : AppState) (c : Canvas) (node : GNode) :
  findNode nodeId (cnodes c) = Some node ->
  isPortal (Node.data node) = false ->
  ~ In uid (map MindMapFile.id (files s)) ->
  let s' := undo now' (fst (handleNodeAction uid now nodeId ActTogglePortal (s, c))) in
  activeFileId s' = Some uid
  /\ activePair s' = Some (canvasPair c)
  /\ (forall f, In f (files s) -> In f (files s')).
Proof.
  intros Hn Hp Hfresh s'.
  set (name := Some (String.append "Sub: " (label (Node.data node)))).
  assert (Hs : fst (handleNodeAction uid now nodeId ActTogglePortal (s, c))
               = fst (createFile uid now name (activeFileId s) (Some nodeId)
                        (snapshot c s))).
  { unfold handleNodeAction. rewrite Hn, Hp. reflexivity. }
  set (t := fst (createFile uid now name (activeFileId s) (Some nodeId)
                   (snapshot c s))) in *.
  pose proof (fresh_createFile_active uid now name (activeFileId s) (Some nodeId)
                (snapshot c s) Hfresh) as Ha.
  fold t in Ha.
  assert (Hpair : activePair t = Some rootPair).
  { unfold activePair. by rewrite Ha. }
  assert (Hu : undoStack t = undoStack (snapshot c s)) by reflexivity.
  assert (Hl : last (undoStack t) = Some (canvasPair c)).
  { rewrite Hu. unfold snapshot, pushUndo. cbn [undoStack]. apply last_push. }
  unfold s'. rewrite Hs.
  destruct (undo_spec now' t (canvasPair c) rootPair Hl Hpair) as (Hp' & _ & _).
  split; [|split; [exact Hp'|]].
  - unfold undo. rewrite Hl, Ha. reflexivity.
  - intros f Hf. unfold undo. rewrite Hl, Ha.
    unfold setEdges, setNodes. cbn [files with_files]. rewrite map_map.
    apply in_map_iff. exists f. split.
    + assert (Hne : MindMapFile.id f <> uid).
      { intros He. apply Hfresh. rewrite <- He. apply in_map, Hf. }
      unfold is_active. cbn [activeFileId with_files].
      unfold t, createFile. cbn [fst activeFileId defaultFile MindMapFile.id opt_is].
      assert (Hb : String.eqb uid (MindMapFile.id f) = false).
      { apply String.eqb_neq. congruence. }
      rewrite Hb. cbn. by rewrite Hb.
    + unfold t, createFile. cbn [fst files]. apply in_or_app. left. exact Hf.
Qed.

Lemma undo_after_make_portal_witness :
  let s1 := fst (handleNodeAction "p1" 1 "c2" ActTogglePortal
                   (fanState, fanCanvas)) in
  activePair s1 = Some rootPair
  /\ activeFileId (undo 2 s1) = Some "p1"
  /\ activePair (undo 2 s1) = Some (canvasPair fanCanvas)
  /\ (forall f, In f (files fanState) -> In f (files (undo 2 s1))).
Proof.
  destruct (undo_after_make_portal "p1" 1 2 "c2" fanState fanCanvas
              (nodeAt "c2" 190 (-110))) as (H1 & H2 & H3).
  - reflexivity.
  - reflexivity.
  - simpl. intros [H|[]]. discriminate.
  - split; [reflexivity|]. split; [exact H1|]. split; [exact H2|exact H3].
Defined.





(* ===================================================================== *)
(** * More on the collision resolver                                     *)
(* ===================================================================== *)

Section ResolverRelation.
Variable mode : LayoutMode.
Variable lockedId : option string.
Variable R : Doubles.FNode -> Doubles.FNode -> Prop.
Hypothesis R_refl : forall n, R n n.
Hypothesis R_trans : forall n1 n2 n3, R n1 n2 -> R n2 n3 -> R n1 n3.
Hypothesis R_displace : forall a b, R b (Doubles.displace mode a b).

Lemma Forall2_R_refl ns : Forall2 R ns ns.
Proof. induction ns; constructor; [apply R_refl|assumption]. Qed.

Lemma Forall2_R_trans l1 l2 l3 :
  Forall2 R l1 l2 -> Forall2 R l2 l3 -> Forall2 R l1 l3.
Proof.
  intros H12. revert l3. induction H12 as [|a b l1 l2 Hab _ IH]; intros l3 H23.
  - inversion H23. constructor.
  - inversion H23 as [|b' c l2' l3' Hbc Hrest]; subst.
    constructor; [eapply R_trans; eassumption|apply IH, Hrest].
Qed.

Lemma visit_rel ns0 i j st :
  Forall2 R ns0 (fst st) ->
  Forall2 R ns0 (fst (Doubles.visit mode lockedId i j st)).
Proof.
  intros H. unfold Doubles.visit.
  destruct (i =? j)%nat; [exact H|].
  destruct (fst st !! i) as [a|]; [|exact H].
  destruct (fst st !! j) as [b|] eqn:Hj; [|exact H].
  destruct (Doubles.is_locked lockedId b); [exact H|].
  destruct (negb (Doubles.overlaps (Doubles.rect a) (Doubles.rect b))); [exact H|].
  cbn [fst].
  destruct (Forall2_lookup_r _ _ _ _ _ H Hj) as (n0 & H0 & Hk).
  rewrite <- (list_insert_id ns0 j n0 H0).
  apply Forall2_insert; [exact H|].
  eapply R_trans; [exact Hk|apply R_displace].
Qed.

Lemma pass_rel ns : Forall2 R ns (fst (Doubles.pass mode lockedId ns)).
Proof.
  rewrite doubles_pass_trace. unfold Doubles.passFrom.
  apply (fold_left_inv (fun st => Forall2 R ns (fst st))).
  - intros st p. apply visit_rel.
  - apply Forall2_R_refl.
Qed.

Lemma resolveCollisions_rel ns :
  Forall2 R ns (Doubles.resolveCollisions ns mode lockedId).
Proof.
  unfold Doubles.resolveCollisions. rewrite doubles_copyNodes_id.
  generalize 20%nat. intros budget. revert ns.
  induction budget as [|b IH]; intros ns; simpl.
  - apply Forall2_R_refl.
  - pose proof (pass_rel ns) as Hp.
    destruct (Doubles.pass mode lockedId ns) as [ns' moved]. simpl in Hp.
    destruct moved; [|exact Hp].
    specialize (IH ns').
    destruct (Doubles.relax mode lockedId b ns') as [r k]. simpl in *.
    eapply Forall2_R_trans; eassumption.
Qed.
End ResolverRelation.

Lemma keepsOtherAxis_refl mode n : Doubles.keepsOtherAxis mode n n.
Proof. unfold Doubles.keepsOtherAxis. destruct mode; reflexivity. Qed.

Lemma keepsOtherAxis_trans mode n1 n2 n3 :
  Doubles.keepsOtherAxis mode n1 n2 -> Doubles.keepsOtherAxis mode n2 n3 ->
  Doubles.keepsOtherAxis mode n1 n3.
Proof. unfold Doubles.keepsOtherAxis. destruct mode; congruence. Qed.

Lemma keepsOtherAxis_displace mode a b :
  Doubles.keepsOtherAxis mode b (Doubles.displace mode a b).
Proof.
  unfold Doubles.keepsOtherAxis, Doubles.displace. destruct mode; reflexivity.
Qed.

(** X18. The resolver slides nodes along one axis.  However many times
    a node is pushed, in orgchart mode it comes back with the y it was
    passed in with, and in mindmap and logic mode with the x it was
    passed in with, the very same double. *)
Theorem resolveCollisions_axis (inputNodes : list Doubles.FNode)
    (mode : LayoutMode) (lockedId : option string) (k : nat)
    (n : Doubles.FNode) :
  inputNodes !! k = Some n ->
  exists n', Doubles.resolveCollisions inputNodes mode lockedId !! k = Some n'
             /\ Doubles.keepsOtherAxis mode n n'.
Proof.
  intros Hn.
  pose proof (resolveCollisions_rel mode lockedId (Doubles.keepsOtherAxis mode)
                (keepsOtherAxis_refl mode) (keepsOtherAxis_trans mode)
                (keepsOtherAxis_displace mode) inputNodes) as H.
  destruct (Forall2_lookup_l _ _ _ _ _ H Hn) as (n' & Hn' & Hs).
  by exists n'.
Qed.

Lemma resolveCollisions_axis_witness :
  exists n',
    Doubles.resolveCollisions Doubles.radialPair mindmap None !! 1%nat = Some n'
    /\ x (Node.position n') = 190%float.
Proof.
  apply (resolveCollisions_axis Doubles.radialPair mindmap None 1
           (Doubles.nodeAt "b" 190 0x1.b7ffffffffffdp+6)).
  reflexivity.
Defined.


Section Settled.
Variable mode : LayoutMode.
Variable lockedId : option string.





(** Conversely, a pass over pairs that are all at rest changes nothing. *)
Lemma pass_at_rest ns :
  (forall i j, visit mode lockedId i j (ns, false) = (ns, false)) ->
  pass mode lockedId ns = (ns, false).
Proof.
  intros H. apply (pass_inv mode lockedId (fun st => st = (ns, false))).
  - intros i j st ->. apply H.
  - reflexivity.
Qed.

Lemma visit_at_rest_iff ns i j :
  visit mode lockedId i j (ns, false) = (ns, false)
  <-> (forall a b, i <> j -> ns !! i = Some a -> ns !! j = Some b ->
         overlaps (rect a) (rect b) = true -> is_locked lockedId b = true).
Proof.
  unfold visit. cbn [fst]. split.
  - intros H a b Hij Ha Hb Hov.
    destruct (Nat.eqb_spec i j) as [|_]; [contradiction|].
    rewrite Ha, Hb, Hov in H. simpl in H.
    destruct (is_locked lockedId b); [reflexivity|discriminate].
  - intros H. destruct (Nat.eqb_spec i j) as [|Hij]; [reflexivity|].
    destruct (ns !! i) as [a|] eqn:Ha; [|reflexivity].
    destruct (ns !! j) as [b|] eqn:Hb; [|reflexivity].
    destruct (is_locked lockedId b) eqn:Hl; [reflexivity|].
    destruct (overlaps (rect a) (rect b)) eqn:Hov; [|reflexivity].
    rewrite (H a b Hij eq_refl eq_refl Hov) in Hl. discriminate.
Qed.
End Settled.

Lemma relax_early_stop mode lockedId budget ns :
  (snd (relax mode lockedId budget ns) < budget)%nat ->
  pass mode lockedId (fst (relax mode lockedId budget ns))
  = (fst (relax mode lockedId budget ns), false).
Proof.
  intros Hk.
  destruct (relax_spec mode lockedId budget ns) as (_ & Hr & _ & Hstop).
  cbv zeta in *. destruct (Hstop Hk) as (m & Hkm & Hm).
  pose proof (pass_unmoved mode lockedId _ Hm) as Hsame.
  rewrite Hr, Hkm.
  change (passN mode lockedId (S m) ns)
    with (fst (pass mode lockedId (passN mode lockedId m ns))).
  rewrite Hsame.
  destruct (pass mode lockedId (passN mode lockedId m ns)) as [p mv].
  simpl in *. by subst.
Qed.



(** X20. Nothing to resolve.  When no node that may be moved overlaps
    another node of the input, [resolveCollisions] returns its input
    after a single pass. *)
Theorem resolveCollisions_at_rest (inputNodes : list GNode) (mode : LayoutMode)
    (lockedId : option string) :
  (forall i j a b, i <> j ->
     inputNodes !! i = Some a -> inputNodes !! j = Some b ->
     overlaps (rect a) (rect b) = true -> is_locked lockedId b = true) ->
  resolveCollisions inputNodes mode lockedId = inputNodes
  /\ passesPerformed inputNodes mode lockedId = 1%nat.
Proof.
  intros H.
  assert (Hp : pass mode lockedId inputNodes = (inputNodes, false)).
  { apply pass_at_rest. intros i j. apply visit_at_rest_iff.
    intros a b. apply H. }
  unfold resolveCollisions, passesPerformed. rewrite copyNodes_id.
  cbn [relax]. rewrite Hp. split; reflexivity.
Qed.

Lemma resolveCollisions_at_rest_witness :
  resolveCollisions [nodeAt "a" 0 0; nodeAt "b" 300 0] orgchart None
  = [nodeAt "a" 0 0; nodeAt "b" 300 0].
Proof.
  destruct (resolveCollisions_at_rest [nodeAt "a" 0 0; nodeAt "b" 300 0]
              orgchart None) as (H & _); [|exact H].
  intros [|[|i]] [|[|j]] a b Hij Ha Hb Hov; simpl in Ha, Hb; try discriminate;
    try contradiction; injection Ha as <-; injection Hb as <-;
    vm_compute in Hov; discriminate.
Defined.

(** X21. A settled result is a fixed point.  When [resolveCollisions]
    performs fewer than 20 passes, running it again on its result (same
    mode, same locked id) returns that result after one pass. *)
Theorem resolveCollisions_idempotent (inputNodes : list GNode)
    (mode : LayoutMode) (lockedId : option string) :
  (passesPerformed inputNodes mode lockedId < 20)%nat ->
  let out := resolveCollisions inputNodes mode lockedId in
  resolveCollisions out mode lockedId = out
  /\ passesPerformed out mode lockedId = 1%nat.
Proof.
  intros Hk out.
  pose proof (relax_early_stop mode lockedId 20 (copyNodes inputNodes) Hk) as Hpass.
  fold (resolveCollisions inputNodes mode lockedId) in Hpass. fold out in Hpass.
  unfold resolveCollisions at 1. unfold passesPerformed. rewrite copyNodes_id.
  cbn [relax]. rewrite Hpass. split; reflexivity.
Qed.

Lemma resolveCollisions_idempotent_witness :
  resolveCollisions (resolveCollisions stackedPair mindmap None) mindmap None
  = resolveCollisions stackedPair mindmap None.
Proof.
  destruct (resolveCollisions_idempotent stackedPair mindmap None) as (H & _).
  - vm_compute. lia.
  - exact H.
Defined.

(* ===================================================================== *)
(** * Import and layout: what they leave alone                           *)
(* ===================================================================== *)

Lemma setNodes_other_files now ns s f :
  In f (files s) -> is_active s f = false -> In f (files (setNodes now ns s)).
Proof.
  intros Hf Ha. unfold setNodes. cbn [files with_files].
  apply in_map_iff. exists f. by rewrite Ha.
Qed.

Lemma setEdges_other_files now es s f :
  In f (files s) -> is_active s f = false -> In f (files (setEdges now es s)).
Proof.
  intros Hf Ha. unfold setEdges. cbn [files with_files].
  apply in_map_iff. exists f. by rewrite Ha.
Qed.

(** X24. Import writes the active document and nothing else.  Whatever
    the payload, [handleImport] leaves the undo and redo stacks, the
    document tree, the active id and every document that is not active
    as they are (so an import cannot be undone); a payload that resolves
    ends up as the (nodes, edges) of the active document. *)
Theorem handleImport_frame (now : Z) (file : option ParseOutcome) (s : AppState) :
  let s' := fst (handleImport now file s) in
  undoStack s' = undoStack s
  /\ redoStack s' = redoStack s
  /\ treeOf s' = treeOf s
  /\ activeFileId s' = activeFileId s
  /\ (forall f, In f (files s) -> is_active s f = false -> In f (files s'))
  /\ (forall r, file = Some (Some r) -> r <> JNull -> is_Some (activeFile s) ->
        exists p, importJSON (Some r) = Resolved p /\ activePair s' = Some p).
Proof.
  unfold handleImport.
  destruct file as [payload|]; cbn zeta.
  2:{ repeat split; try reflexivity; [tauto|discriminate]. }
  destruct (importJSON payload) as [p|msg] eqn:Himp; cbn [fst].
  - repeat split; try reflexivity.
    + by rewrite treeOf_setEdges, treeOf_setNodes.
    + intros f Hf Ha. apply setEdges_other_files.
      * apply setNodes_other_files; assumption.
      * exact Ha.
    + intros r [= ->] _ Hact. exists p. split; [exact Himp|].
      apply activePair_restore, Hact.
  - repeat split; try reflexivity; [tauto|].
    intros r [= ->] Hr _. destruct r; [contradiction|discriminate].
Qed.

Lemma lookup_map {A B} (f : A -> B) (l : list A) (i : nat) :
  map f l !! i = option_map f (l !! i).
Proof.
  revert i. induction l as [|a l IH]; intros [|i]; simpl; try reflexivity.
  apply IH.
Qed.

(** X25. Auto-layout only moves nodes.  Whatever centres dagre
    returns, [applyLayout] returns the same edges and the same nodes in
    the same order with every field other than the position unchanged,
    and two nodes with the same id get the same position. *)
Theorem applyLayout_frame (dagreNode : string -> XY Z) (nodes : list GNode)
    (edges : list Edge.t) (mode : LayoutMode) :
  snd (applyLayout dagreNode nodes edges mode) = edges
  /\ map otherFields (fst (applyLayout dagreNode nodes edges mode))
     = map otherFields nodes
  /\ (forall i j a b a' b',
        nodes !! i = Some a -> nodes !! j = Some b ->
        fst (applyLayout dagreNode nodes edges mode) !! i = Some a' ->
        fst (applyLayout dagreNode nodes edges mode) !! j = Some b' ->
        Node.id a = Node.id b ->
        Node.position a' = Node.position b').
Proof.
  unfold applyLayout. destruct nodes as [|n0 ns] eqn:Hnodes.
  - repeat split; try reflexivity. intros i j a b a' b' Ha. discriminate.
  - rewrite <- Hnodes. clear Hnodes. cbn [fst snd].
    split; [reflexivity|]. split.
    + rewrite map_map. apply map_ext. reflexivity.
    + intros i j a b a' b' Ha Hb Ha' Hb' Hid.
      rewrite lookup_map, Ha in Ha'. rewrite lookup_map, Hb in Hb'.
      simpl in Ha', Hb'. injection Ha' as <-. injection Hb' as <-.
      cbn. by rewrite Hid.
Qed.

(* ===================================================================== *)
(** * Pinning and reordering documents                                   *)
(* ===================================================================== *)

Lemma findIndex_Some {A} (p : A -> bool) (l : list A) (i : nat) :
  findIndex p l = Some i -> exists a, l !! i = Some a /\ p a = true.
Proof.
  revert i. induction l as [|a l IH]; simpl; intros i H; [discriminate|].
  destruct (p a) eqn:Ha.
  - injection H as <-. by exists a.
  - destruct (findIndex p l) as [k|]; [|discriminate].
    injection H as <-. apply (IH k eq_refl).
Qed.

Lemma findIndex_None {A} (p : A -> bool) (l : list A) :
  findIndex p l = None -> forall a, In a l -> p a = false.
Proof.
  induction l as [|a l IH]; simpl; intros H b Hb; [contradiction|].
  destruct (p a) eqn:Ha; [discriminate|].
  destruct (findIndex p l); [discriminate|].
  destruct Hb as [<-|Hb]; [exact Ha|by apply IH].
Qed.

Lemma findIndex_find {A} (p : A -> bool) (l : list A) (i : nat) :
  findIndex p l = Some i -> l !! i = find p l.
Proof.
  revert i. induction l as [|a l IH]; simpl; intros i H; [discriminate|].
  destruct (p a); [by injection H as <-|].
  destruct (findIndex p l) as [k|]; [|discriminate].
  injection H as <-. apply (IH k eq_refl).
Qed.

Lemma find_delete {A} (p : A -> bool) (l : list A) (i : nat) (a : A) :
  l !! i = Some a -> p a = false -> find p (delete i l) = find p l.
Proof.
  revert i. induction l as [|b l IH]; intros [|i] H Ha; simpl in *;
    try discriminate.
  - injection H as ->. by rewrite Ha.
  - destruct (p b); [reflexivity|]. by apply IH.
Qed.

Lemma splice_in_lookup {A} (k : nat) (v : A) (l : list A) :
  (k <= length l)%nat ->
  splice_in k v l !! k = Some v
  /\ (forall t, (t < k)%nat -> splice_in k v l !! t = l !! t)
  /\ (forall t, (k < t)%nat -> splice_in k v l !! t = l !! (t - 1)%nat)
  /\ delete k (splice_in k v l) = l.
Proof.
  intros Hk. unfold splice_in.
  assert (Hlen : length (take k l) = k) by (rewrite length_take; lia).
  split; [by apply list_lookup_middle|]. split; [|split].
  - intros t Ht. rewrite lookup_app_l by lia. by apply lookup_take_lt.
  - intros t Ht. rewrite lookup_app_r by lia. rewrite Hlen.
    destruct (t - k)%nat as [|d] eqn:Hd; [lia|]. simpl.
    rewrite lookup_drop. f_equal. lia.
  - rewrite <- Hlen at 1. rewrite delete_middle. apply take_drop.
Qed.

Lemma with_files_same s : with_files (files s) s = s.
Proof. by destruct s. Qed.

Lemma indicesWhere_In {A} (p : A -> bool) (l : list A) (i : nat) :
  In i (indicesWhere p l) <-> exists a, l !! i = Some a /\ p a = true.
Proof.
  unfold indicesWhere. rewrite filter_In, in_seq. split.
  - intros [_ H]. destruct (l !! i) as [a|]; [by exists a|discriminate].
  - intros (a & Ha & Hp). split; [|by rewrite Ha].
    apply lookup_lt_Some in Ha. lia.
Qed.

Lemma filter_seq_first_min (q : nat -> bool) (a n first : nat) rest :
  List.filter q (seq a n) = first :: rest ->
  forall i, In i (first :: rest) -> (first <= i)%nat.
Proof.
  revert a. induction n as [|n IH]; intros a H i Hi; simpl in H; [discriminate|].
  destruct (q a).
  - injection H as <- <-. destruct Hi as [<-|Hi]; [lia|].
    apply filter_In in Hi as [Hi _]. apply in_seq in Hi. lia.
  - eapply IH; eassumption.
Qed.

Lemma filter_seq_last_max (q : nat -> bool) (a n d i : nat) :
  In i (List.filter q (seq a n)) ->
  (i <= List.last (List.filter q (seq a n)) d)%nat.
Proof.
  revert a i. induction n as [|n IH]; intros a i Hi; simpl in *; [contradiction|].
  destruct (q a).
  - destruct (List.filter q (seq (S a) n)) as [|h t] eqn:HF.
    + destruct Hi as [<-|[]]. simpl. lia.
    + assert (Hh : (h <= List.last (h :: t) d)%nat).
      { rewrite <- HF. apply IH. rewrite HF. by left. }
      assert (Hah : (S a <= h)%nat).
      { assert (In h (List.filter q (seq (S a) n))) by (rewrite HF; by left).
        apply filter_In in H as [H _]. apply in_seq in H. lia. }
      change (List.last (a :: h :: t) d) with (List.last (h :: t) d).
      destruct Hi as [<-|Hi]; [lia|].
      rewrite <- HF. apply IH. by rewrite HF.
  - by apply IH.
Qed.

(** Where [togglePin] puts the document: the list without it, with the
    toggled document put in at some index. *)
Lemma togglePin_shape now id s idx file :
  findIndex (has_id id) (files s) = Some idx ->
  files s !! idx = Some file ->
  let next1 := delete idx (files s) in
  let updated := file_toggle_pinned now file in
  let inGroup := fun f => opt_eqb (MindMapFile.parentFileId f)
                                  (MindMapFile.parentFileId file) in
  exists k,
    (k <= length next1)%nat
    /\ togglePin now id s = with_files (splice_in k updated next1) s
    /\ (MindMapFile.pinned updated = true ->
        forall i f, (i < k)%nat -> next1 !! i = Some f -> inGroup f = false)
    /\ (MindMapFile.pinned updated = false ->
        forall j g, (k <= j)%nat -> next1 !! j = Some g -> inGroup g = true ->
                    MindMapFile.pinned g = true ->
        exists h, next1 !! k = Some h /\ inGroup h = true
                  /\ MindMapFile.pinned h = false /\ (k <= j)%nat).
Proof.
  intros Hidx Hfile next1 updated inGroup.
  unfold togglePin. rewrite Hidx, Hfile. fold next1 updated.
  change (fun f => opt_eqb (MindMapFile.parentFileId f)
                           (MindMapFile.parentFileId file)) with inGroup.
  destruct (indicesWhere inGroup next1) as [|first rest] eqn:HG.
  - exists (length next1). split; [lia|]. split.
    + unfold splice_in. by rewrite firstn_all, drop_all.
    + split.
      * intros _ i f _ Hf. destruct (inGroup f) eqn:Hg; [|reflexivity].
        assert (Hin : In i (indicesWhere inGroup next1)).
        { apply indicesWhere_In. by exists f. }
        rewrite HG in Hin. contradiction.
      * intros _ j g Hj Hg. apply lookup_lt_Some in Hg. lia.
  - assert (Hmem : forall i, In i (first :: rest) ->
                     exists a, next1 !! i = Some a /\ inGroup a = true).
    { intros i Hi. apply indicesWhere_In. by rewrite HG. }
    pose proof HG as HG'. unfold indicesWhere in HG'.
    assert (Hfirst : forall i, In i (first :: rest) -> (first <= i)%nat).
    { eapply filter_seq_first_min. exact HG'. }
    assert (Hlast : forall i, In i (first :: rest) ->
                      (i <= List.last (first :: rest) first)%nat).
    { intros i Hi. rewrite <- HG'. apply filter_seq_last_max. by rewrite HG'. }
    destruct (MindMapFile.pinned updated) eqn:Hpin.
    + exists first. split.
      { destruct (Hmem first (or_introl eq_refl)) as (a & Ha & _).
        apply lookup_lt_Some in Ha. lia. }
      split; [reflexivity|]. split; [|discriminate].
      intros _ i f Hi Hf. destruct (inGroup f) eqn:Hg; [|reflexivity].
      assert (Hin : In i (first :: rest)).
      { rewrite <- HG. apply indicesWhere_In. by exists f. }
      specialize (Hfirst i Hin). lia.
    + destruct (find _ (first :: rest)) as [gi|] eqn:Hfind.
      * apply find_some in Hfind as [Hgi Hun].
        destruct (Hmem gi Hgi) as (h & Hh & Hhg).
        rewrite Hh in Hun. apply negb_true_iff in Hun.
        exists gi. split; [apply lookup_lt_Some in Hh; lia|].
        split; [reflexivity|]. split; [discriminate|].
        intros _ j g Hj Hg Hgg Hgp. exists h. tauto.
      * exists (List.last (first :: rest) first + 1)%nat.
        assert (Hl : In (List.last (first :: rest) first) (first :: rest)).
        { clear. generalize first at 1 3. induction rest as [|r rest IH]; intros d.
          - by left.
          - right. change (List.last (d :: r :: rest) first)
              with (List.last (r :: rest) first). apply IH. }
        split.
        { destruct (Hmem _ Hl) as (a & Ha & _). apply lookup_lt_Some in Ha. lia. }
        split; [reflexivity|]. split; [discriminate|].
        intros _ j g Hj Hg Hgg _. exfalso.
        assert (Hin : In j (first :: rest)).
        { rewrite <- HG. apply indicesWhere_In. by exists g. }
        specialize (Hlast j Hin). lia.
Qed.

Lemma has_id_present id (fs : list MindMapFile.t) :
  In id (map MindMapFile.id fs) ->
  exists idx, findIndex (has_id id) fs = Some idx.
Proof.
  intros Hin. destruct (findIndex (has_id id) fs) as [idx|] eqn:Hf; [by exists idx|].
  apply in_map_iff in Hin as (f & Hid & Hin).
  pose proof (findIndex_None _ _ Hf f Hin) as Hn.
  unfold has_id in Hn. rewrite Hid, String.eqb_refl in Hn. discriminate.
Qed.

Lemma has_id_absent id (fs : list MindMapFile.t) :
  ~ In id (map MindMapFile.id fs) -> findIndex (has_id id) fs = None.
Proof.
  intros Hn. destruct (findIndex (has_id id) fs) as [idx|] eqn:Hf; [|reflexivity].
  apply findIndex_Some in Hf as (f & Hf & Hid).
  apply String.eqb_eq in Hid. exfalso. apply Hn. rewrite <- Hid.
  apply in_map. apply list_elem_of_In. eapply list_elem_of_lookup_2, Hf.
Qed.

(** X26. What [togglePin] does.  An id that no document has changes
    nothing.  Otherwise the first document with that id has its pin
    flipped and is moved: taking it out of the new list gives the old
    list without it, so all other documents keep their relative order;
    the list is as long as before and holds the same ids. *)
Theorem togglePin_effect (now : Z) (id : string) (s : AppState) :
  (~ In id (map MindMapFile.id (files s)) -> togglePin now id s = s)
  /\ (In id (map MindMapFile.id (files s)) ->
      exists idx file k,
        files s !! idx = Some file
        /\ find (has_id id) (files s) = Some file
        /\ files (togglePin now id s) !! k = Some (file_toggle_pinned now file)
        /\ delete k (files (togglePin now id s)) = delete idx (files s)
        /\ map MindMapFile.id (files (togglePin now id s))
           ≡ₚ map MindMapFile.id (files s)).
Proof.
  split.
  - intros Hn. unfold togglePin. rewrite (has_id_absent _ _ Hn).
    apply with_files_same.
  - intros Hin. destruct (has_id_present _ _ Hin) as [idx Hidx].
    destruct (findIndex_Some _ _ _ Hidx) as (file & Hfile & _).
    destruct (togglePin_shape now id s idx file Hidx Hfile)
      as (k & Hk & -> & _ & _).
    cbn [files with_files].
    destruct (splice_in_lookup k (file_toggle_pinned now file)
                (delete idx (files s)) Hk) as (Hat & _ & _ & Hdel).
    exists idx, file, k. split; [exact Hfile|].
    split; [by rewrite <- (findIndex_find _ _ _ Hidx)|].
    split; [exact Hat|]. split; [exact Hdel|].
    unfold splice_in. rewrite map_app. cbn [map].
    rewrite <- Permutation_middle, <- map_app, take_drop.
    change (MindMapFile.id (file_toggle_pinned now file))
      with (MindMapFile.id file).
    rewrite (delete_Permutation (files s) idx file Hfile) at 2.
    reflexivity.
Qed.

Lemma opt_eqb_true a b : opt_eqb a b = true <-> a = b.
Proof.
  destruct a as [u|], b as [v|]; simpl; try (split; congruence).
  rewrite String.eqb_eq. split; congruence.
Qed.

Lemma reorderFiles_shape sourceId targetId s :
  reorderFiles sourceId targetId s = s
  \/ exists si source nti target,
       sourceId <> targetId
       /\ files s !! si = Some source
       /\ find (has_id sourceId) (files s) = Some source
       /\ find (has_id targetId) (files s) = Some target
       /\ delete si (files s) !! nti = Some target
       /\ MindMapFile.parentFileId source = MindMapFile.parentFileId target
       /\ MindMapFile.pinned source = MindMapFile.pinned target
       /\ reorderFiles sourceId targetId s
          = with_files (splice_in nti source (delete si (files s))) s.
Proof.
  unfold reorderFiles.
  destruct (String.eqb_spec sourceId targetId) as [|Hne]; [by left|].
  destruct (findIndex (has_id sourceId) (files s)) as [si|] eqn:Hsi; [|by left].
  destruct (findIndex (has_id targetId) (files s)) as [ti|] eqn:Hti; [|by left].
  destruct (findIndex_Some _ _ _ Hsi) as (source & Hsource & Hsid).
  destruct (findIndex_Some _ _ _ Hti) as (target & Htarget & Htid).
  rewrite Hsource, Htarget.
  destruct (opt_eqb _ _) eqn:Hpar; [|by left]. cbn [negb].
  destruct (Bool.eqb _ _) eqn:Hpin; [|by left]. cbn [negb].
  destruct (findIndex (has_id targetId) (delete si (files s))) as [nti|] eqn:Hnti;
    [|by left].
  right. exists si, source, nti, target.
  split; [exact Hne|]. split; [exact Hsource|].
  split; [by rewrite <- (findIndex_find _ _ _ Hsi)|].
  split; [by rewrite <- (findIndex_find _ _ _ Hti)|].
  split.
  { rewrite (findIndex_find _ _ _ Hnti).
    rewrite (find_delete _ _ _ source Hsource).
    - by rewrite <- (findIndex_find _ _ _ Hti).
    - unfold has_id in *. apply String.eqb_eq in Hsid.
      rewrite Hsid. by apply String.eqb_neq. }
  split; [by apply opt_eqb_true|]. split; [by apply Bool.eqb_prop|reflexivity].
Qed.

(** X27. What [reorderFiles] does.  The store either stays as it is,
    or the first document with the source id is taken out and put in
    directly before the first document with the target id; that only
    happens for two different ids whose documents have the same parent
    and the same pin.  The documents are always a permutation of the
    old ones. *)
Theorem reorderFiles_effect (sourceId targetId : string) (s : AppState) :
  files (reorderFiles sourceId targetId s) ≡ₚ files s
  /\ (reorderFiles sourceId targetId s = s
      \/ exists k source target,
           find (has_id sourceId) (files s) = Some source
           /\ find (has_id targetId) (files s) = Some target
           /\ sourceId <> targetId
           /\ MindMapFile.parentFileId source = MindMapFile.parentFileId target
           /\ MindMapFile.pinned source = MindMapFile.pinned target
           /\ files (reorderFiles sourceId targetId s) !! k = Some source
           /\ files (reorderFiles sourceId targetId s) !! S k = Some target).
Proof.
  destruct (reorderFiles_shape sourceId targetId s)
    as [->|(si & source & nti & target & Hne & Hs & Hfs & Hft & Ht & Hpar & Hpin & ->)].
  - split; [reflexivity|by left].
  - cbn [files with_files].
    assert (Hk : (nti <= length (delete si (files s)))%nat).
    { apply lookup_lt_Some in Ht. lia. }
    destruct (splice_in_lookup nti source (delete si (files s)) Hk)
      as (Hat & _ & Hafter & _).
    split.
    + unfold splice_in. rewrite <- Permutation_middle, take_drop.
      symmetry. by apply delete_Permutation.
    + right. exists nti, source, target.
      repeat (split; [assumption|]).
      rewrite Hafter by lia. simpl. by rewrite Nat.sub_0_r.
Qed.

Lemma sublist_lookup_elem {A} (l' l : list A) (j : nat) (g : A) :
  sublist l' l -> l' !! j = Some g -> exists j', l !! j' = Some g.
Proof.
  intros Hs. revert j. induction Hs as [|a l1 l2 _ IH|a l1 l2 _ IH]; intros j Hj.
  - discriminate.
  - destruct j as [|j]; [by exists 0%nat|].
    destruct (IH j Hj) as [j' Hj']. by exists (S j').
  - destruct (IH j Hj) as [j' Hj']. by exists (S j').
Qed.

Lemma sublist_lookup_pair {A} (l' l : list A) (i j : nat) (f g : A) :
  sublist l' l -> (i < j)%nat -> l' !! i = Some f -> l' !! j = Some g ->
  exists i' j', (i' < j')%nat /\ l !! i' = Some f /\ l !! j' = Some g.
Proof.
  intros Hs. revert i j. induction Hs as [|a l1 l2 Hs IH|a l1 l2 _ IH];
    intros i j Hij Hi Hj.
  - discriminate.
  - destruct j as [|j]; [lia|]. destruct i as [|i].
    + destruct (sublist_lookup_elem _ _ _ _ Hs Hj) as [j' Hj'].
      exists 0%nat, (S j'). split; [lia|]. by split.
    + destruct (IH i j ltac:(lia) Hi Hj) as (i' & j' & H & Hi' & Hj').
      exists (S i'), (S j'). split; [lia|]. by split.
  - destruct (IH i j Hij Hi Hj) as (i' & j' & H & Hi' & Hj').
    exists (S i'), (S j'). split; [lia|]. by split.
Qed.

Lemma PinSorted_sublist (l' l : list MindMapFile.t) :
  sublist l' l -> PinSorted l -> PinSorted l'.
Proof.
  intros Hs Hl i j f g Hij Hf Hg.
  destruct (sublist_lookup_pair _ _ _ _ _ _ Hs Hij Hf Hg) as (i' & j' & H & Hf' & Hg').
  by apply (Hl i' j').
Qed.

Lemma filter_sublist {A} (p : A -> bool) (l : list A) : sublist (List.filter p l) l.
Proof.
  induction l as [|a l IH]; simpl; [constructor|].
  destruct (p a); by constructor.
Qed.

Lemma PinSorted_splice (k : nat) (u : MindMapFile.t) (l : list MindMapFile.t) :
  PinSorted l -> (k <= length l)%nat ->
  (forall i f, (i < k)%nat -> l !! i = Some f ->
     MindMapFile.parentFileId f = MindMapFile.parentFileId u ->
     MindMapFile.pinned u = true -> MindMapFile.pinned f = true) ->
  (forall j g, (k <= j)%nat -> l !! j = Some g ->
     MindMapFile.parentFileId u = MindMapFile.parentFileId g ->
     MindMapFile.pinned g = true -> MindMapFile.pinned u = true) ->
  PinSorted (splice_in k u l).
Proof.
  intros Hl Hk C1 C2 i j f g Hij Hf Hg Hpar Hpin.
  destruct (splice_in_lookup k u l Hk) as (Hat & Hbefore & Hafter & _).
  destruct (Nat.lt_trichotomy i k) as [Hi|[->|Hi]];
    destruct (Nat.lt_trichotomy j k) as [Hj|[->|Hj]]; try lia.
  - rewrite Hbefore in Hf, Hg by lia. by apply (Hl i j f g).
  - rewrite Hbefore in Hf by lia. rewrite Hat in Hg. injection Hg as <-.
    by apply (C1 i f).
  - rewrite Hbefore in Hf by lia. rewrite Hafter in Hg by lia.
    apply (Hl i (j - 1)%nat f g); try assumption. lia.
  - rewrite Hat in Hf. injection Hf as <-. rewrite Hafter in Hg by lia.
    apply (C2 (j - 1)%nat g); try assumption. lia.
  - rewrite Hafter in Hf, Hg by lia.
    apply (Hl (i - 1)%nat (j - 1)%nat f g); try assumption. lia.
Qed.

(** X28. Pin order is an invariant of the store.  If inside every
    group of documents with the same parent no unpinned document stands
    before a pinned one, this is still so after [togglePin],
    [reorderFiles], [createFile] and [deleteFile]. *)
Theorem pin_order_invariant (s : AppState) :
  PinSorted (files s) ->
  (forall now id, PinSorted (files (togglePin now id s)))
  /\ (forall sourceId targetId, PinSorted (files (reorderFiles sourceId targetId s)))
  /\ (forall uid now name pf pn,
        PinSorted (files (fst (createFile uid now name pf pn s))))
  /\ (forall id, PinSorted (files (deleteFile id s))).
Proof.
  intros Hs. split; [|split; [|split]].
  - intros now id.
    destruct (findIndex (has_id id) (files s)) as [idx|] eqn:Hidx.
    2:{ unfold togglePin. by rewrite Hidx. }
    destruct (findIndex_Some _ _ _ Hidx) as (file & Hfile & _).
    destruct (togglePin_shape now id s idx file Hidx Hfile)
      as (k & Hk & -> & Hpinned & Hunpinned).
    cbn [files with_files].
    assert (H1 : PinSorted (delete idx (files s))).
    { eapply PinSorted_sublist; [apply sublist_delete|exact Hs]. }
    apply PinSorted_splice; [exact H1|exact Hk| |].
    + intros i f Hi Hf Hpar Hpin.
      specialize (Hpinned Hpin i f Hi Hf).
      cbn in Hpar. apply opt_eqb_true in Hpar. congruence.
    + intros j g Hj Hg Hpar Hpin.
      destruct (MindMapFile.pinned (file_toggle_pinned now file)) eqn:Hu;
        [reflexivity|].
      cbn in Hpar. symmetry in Hpar. apply opt_eqb_true in Hpar.
      destruct (Hunpinned eq_refl j g Hj Hg Hpar Hpin) as (h & Hh & Hhg & Hhp & _).
      apply opt_eqb_true in Hhg, Hpar.
      destruct (decide (j = k)) as [->|Hne].
      * rewrite Hh in Hg. injection Hg as <-. congruence.
      * rewrite <- Hhp. apply (H1 k j h g); try assumption; [lia|congruence].
  - intros sourceId targetId.
    destruct (reorderFiles_shape sourceId targetId s)
      as [->|(si & source & nti & target & Hne & Hsrc & _ & _ & Ht & Hpar & Hpin & ->)];
      [exact Hs|].
    cbn [files with_files].
    assert (H1 : PinSorted (delete si (files s))).
    { eapply PinSorted_sublist; [apply sublist_delete|exact Hs]. }
    apply PinSorted_splice; [exact H1|apply lookup_lt_Some in Ht; lia| |].
    + intros i f Hi Hf Hp Hsp.
      apply (H1 i nti f target); try assumption; congruence.
    + intros j g Hj Hg Hp Hgp.
      destruct (decide (j = nti)) as [->|Hn].
      * rewrite Ht in Hg. injection Hg as <-. congruence.
      * rewrite Hpin. apply (H1 nti j target g); try assumption; [lia|congruence].
  - intros uid now name pf pn. unfold createFile. cbn [fst files].
    set (f := defaultFile _ _ _ _ _).
    replace (files s ++ [f]) with (splice_in (length (files s)) f (files s)).
    2:{ unfold splice_in. by rewrite firstn_all, drop_all. }
    apply PinSorted_splice; [exact Hs|lia| |].
    + intros i g _ _ _ Hp. discriminate.
    + intros j g Hj Hg. apply lookup_lt_Some in Hg. lia.
  - intros id. unfold deleteFile. cbn [files].
    eapply PinSorted_sublist; [apply filter_sublist|exact Hs].
Qed.

Lemma pin_order_invariant_witness :
  PinSorted (files (togglePin 5 "a" nestedState)).
Proof.
  destruct (pin_order_invariant nestedState) as (H & _); [|apply H].
  intros [|[|[|i]]] [|[|[|j]]] f g Hij Hf Hg Hpar Hpin;
    simpl in Hf, Hg; try lia; try discriminate;
    injection Hf as <-; injection Hg as <-; simpl in *; congruence.
Defined.

(* ===================================================================== *)
(** * Node component: label and colour                                   *)
(* ===================================================================== *)

Lemma mapNodeData_map {B} (g : GNode -> B) nodeId d ns :
  (forall n, g (Node.with_data (d (Node.data n)) n) = g n) ->
  map g (mapNodeData nodeId d ns) = map g ns.
Proof.
  intros Hg. unfold mapNodeData. rewrite map_map. apply map_ext.
  intros n. destruct (String.eqb (Node.id n) nodeId); [apply Hg|reflexivity].
Qed.

(** X29. Editing a label or a colour.  [commitLabel] and [setColor]
    write the active document only: the nodes keep their order, ids,
    positions and portal data, the edges stay, exactly the nodes with
    the given id get the new label (or colour), and neither history
    stack changes, so the edit cannot be undone. *)
Theorem label_and_color_edits (now : Z) (id v : string) (s : AppState)
    (f : MindMapFile.t) :
  activeFile s = Some f ->
  (exists f',
      activeFile (commitLabel now id v s) = Some f'
      /\ map (fun n => (Node.id n, Node.position n, isPortal (Node.data n),
                        subFileId (Node.data n), color (Node.data n)))
             (MindMapFile.nodes f')
         = map (fun n => (Node.id n, Node.position n, isPortal (Node.data n),
                          subFileId (Node.data n), color (Node.data n)))
               (MindMapFile.nodes f)
      /\ map (fun n => label (Node.data n)) (MindMapFile.nodes f')
         = map (fun n => if String.eqb (Node.id n) id then v
                         else label (Node.data n))
               (MindMapFile.nodes f)
      /\ MindMapFile.edges f' = MindMapFile.edges f
      /\ undoStack (commitLabel now id v s) = undoStack s
      /\ redoStack (commitLabel now id v s) = redoStack s)
  /\ (exists f',
      activeFile (setColor now id v s) = Some f'
      /\ map (fun n => (Node.id n, Node.position n, isPortal (Node.data n),
                        subFileId (Node.data n), label (Node.data n)))
             (MindMapFile.nodes f')
         = map (fun n => (Node.id n, Node.position n, isPortal (Node.data n),
                          subFileId (Node.data n), label (Node.data n)))
               (MindMapFile.nodes f)
      /\ map (fun n => color (Node.data n)) (MindMapFile.nodes f')
         = map (fun n => if String.eqb (Node.id n) id then v
                         else color (Node.data n))
               (MindMapFile.nodes f)
      /\ MindMapFile.edges f' = MindMapFile.edges f
      /\ undoStack (setColor now id v s) = undoStack s
      /\ redoStack (setColor now id v s) = redoStack s).
Proof.
  intros Hf. split.
  - unfold commitLabel, updateNodes. rewrite Hf.
    rewrite activeFile_setNodes, Hf. eexists. split; [reflexivity|].
    cbn [MindMapFile.nodes MindMapFile.edges MindMapFile.with_nodes].
    split; [by apply mapNodeData_map|].
    split; [|repeat split; reflexivity].
    unfold mapNodeData. rewrite map_map. apply map_ext.
    intros n. destruct (String.eqb (Node.id n) id); reflexivity.
  - unfold setColor, updateNodes. rewrite Hf.
    rewrite activeFile_setNodes, Hf. eexists. split; [reflexivity|].
    cbn [MindMapFile.nodes MindMapFile.edges MindMapFile.with_nodes].
    split; [by apply mapNodeData_map|].
    split; [|repeat split; reflexivity].
    unfold mapNodeData. rewrite map_map. apply map_ext.
    intros n. destruct (String.eqb (Node.id n) id); reflexivity.
Qed.

Lemma label_and_color_edits_witness :
  activePair (commitLabel 1 "root" "Plan" oneFileState)
  = Some (mkSnapshot
            [Node.mk "root" "editable" (mkXY 0 0)
               (mkData "Plan" false EmptyString None) false] []).
Proof.
  destruct (label_and_color_edits 1 "root" "Plan" oneFileState
              (defaultFile "a" 0 "Untitled Map" None None) eq_refl)
    as ((f' & Hf' & _) & _).
  unfold activePair. rewrite Hf'.
  vm_compute in Hf'. injection Hf' as <-. reflexivity.
Defined.
